(** * Release-notes generator: a model of [main.py]

  The script reads its configuration from the process environment, asks
  the GitHub REST API for the latest commits of a branch (one list
  request, then one details and one diff request per commit), reshapes
  the answers into commit records and hands them to a text-generation
  model inside a fixed prompt.

  The development follows the script top to bottom:
  - [PyStr]: the [str] methods the script calls ([strip], [split],
    [join]);
  - [PyVal]: decoded JSON values with subscripting, iteration and
    [str()]/[repr()] formatting;
  - [Platform]: the libraries and services the script talks to
    ([urllib], [requests], the chat model), kept abstract;
  - [Script]: the class [GitHubRepoAnalyzer], [generate_release_notes]
    and the [__main__] block, written in a state-and-exception monad
    whose state records every request that leaves the process;
  - [Fixture]: a canned server used to run the script on examples;
  - [Observations]: the vocabulary in which the properties are stated;
  - the properties: URL parsing, the exchanges of [get_commit_history],
    the prompt, the start-up checks, and runs on the canned server. *)

From Stdlib Require Import ZArith String Ascii List Lia.
From stdpp Require Import base option list gmap strings pretty.

Open Scope string_scope.
Open Scope list_scope.
Open Scope Z_scope.

(* ===================================================================== *)
(** ** Python [str] methods *)
(* ===================================================================== *)

Module PyStr.

(** A [str] is modelled by [string]; the script only ever inspects the
    character ["/"], so the encoding of the others is immaterial. *)

Definition slash : ascii := "/"%char.

(** Membership of a character in the [chars] argument of [strip]. *)
Fixpoint mem (c : ascii) (chars : string) : bool :=
  match chars with
  | EmptyString => false
  | String x rest => if Ascii.eqb c x then true else mem c rest
  end.

(** [s.lstrip(chars)]: drop the longest prefix made of [chars]. *)
Fixpoint lstrip (chars s : string) : string :=
  match s with
  | EmptyString => EmptyString
  | String c rest => if mem c chars then lstrip chars rest else s
  end.

(** [s.rstrip(chars)]: drop the longest suffix made of [chars]. *)
Fixpoint rstrip (chars s : string) : string :=
  match s with
  | EmptyString => EmptyString
  | String c rest =>
      match rstrip chars rest with
      | EmptyString => if mem c chars then EmptyString else String c EmptyString
      | kept => String c kept
      end
  end.

(** [s.strip(chars)]. *)
Definition strip (chars s : string) : string :=
  rstrip chars (lstrip chars s).

(** [s.split(sep)] for a one-character separator, the only way the
    script calls it.  The result is never empty: [''.split('/')] is
    [['']]. *)
Fixpoint split (sep : ascii) (s : string) : list string :=
  match s with
  | EmptyString => [EmptyString]
  | String c rest =>
      if Ascii.eqb c sep then EmptyString :: split sep rest
      else match split sep rest with
           | [] => [String c EmptyString]
           | piece :: pieces => String c piece :: pieces
           end
  end.

(** [sep.join(items)]. *)
Fixpoint join (sep : string) (items : list string) : string :=
  match items with
  | [] => EmptyString
  | [x] => x
  | x :: rest => x +:+ sep +:+ join sep rest
  end.

(** [sub in s]. *)
Definition contains (s sub : string) : Prop :=
  exists before after, s = before +:+ sub +:+ after.

(** [s.startswith(sub)]. *)
Fixpoint starts_with (sub s : string) : bool :=
  match sub, s with
  | EmptyString, _ => true
  | String a sub', String b s' => Ascii.eqb a b && starts_with sub' s'
  | String _ _, EmptyString => false
  end.

(** [sub in s], by trying every position. *)
Fixpoint occurs (sub s : string) : bool :=
  starts_with sub s
  || match s with
     | EmptyString => false
     | String _ rest => occurs sub rest
     end.

(** A string without any ["/"]. *)
Fixpoint slash_free (s : string) : bool :=
  match s with
  | EmptyString => true
  | String c rest => negb (Ascii.eqb c slash) && slash_free rest
  end.

(** A string made of ["/"] only. *)
Fixpoint all_slashes (s : string) : bool :=
  match s with
  | EmptyString => true
  | String c rest => Ascii.eqb c slash && all_slashes rest
  end.

Definition nonempty (s : string) : bool :=
  match s with EmptyString => false | _ => true end.

(** The pieces of a path between its slashes that are not empty. *)
Definition segments (p : string) : list string :=
  filter (fun piece => nonempty piece = true) (split slash p).

(** [p.strip("/").split("/")], the pieces that [_parse_repo_url] indexes. *)
Definition parts (p : string) : list string :=
  split slash (strip "/" p).

End PyStr.

(* ===================================================================== *)
(** ** Python exceptions and values *)
(* ===================================================================== *)

(** The exceptions that can leave the script. *)
Inductive exn : Type :=
| HTTPError (status : Z)          (* requests: [raise_for_status] *)
| RequestException (msg : string) (* requests: transport failure *)
| JSONDecodeError                 (* requests: [response.json()] *)
| KeyError (key : string)
| IndexError
| TypeError
| ValueError (msg : string)
| OSError (msg : string)          (* [open] refused *)
| ModelError (msg : string).      (* failure of the text-generation client *)

Abbreviation result A := (sum exn A) (only parsing).

Module PyVal.

(** What [response.json()] can return.  A float is carried by its
    [repr], the only thing the script ever does with one is format it.
    A dict is its items in insertion order. *)
#[warnings="-register-all"]
Inductive pyval : Type :=
| PNone
| PBool (b : bool)
| PInt (n : Z)
| PFloat (shown : string)
| PStr (s : string)
| PList (items : list pyval)
| PDict (items : list (string * pyval)).

Fixpoint dict_get (items : list (string * pyval)) (key : string)
  : option pyval :=
  match items with
  | [] => None
  | (k, v) :: rest => if String.eqb k key then Some v else dict_get rest key
  end.

(** [v[key]] for a string key. *)
Definition getitem (v : pyval) (key : string) : result pyval :=
  match v with
  | PDict items =>
      match dict_get items key with
      | Some x => inr x
      | None => inl (KeyError key)
      end
  | _ => inl TypeError
  end.

(** The elements visited by [for x in v]: the items of a list, the keys
    of a dict, the characters of a [str]. *)
Definition iter (v : pyval) : result (list pyval) :=
  match v with
  | PList items => inr items
  | PDict items => inr (map (fun kv => PStr (fst kv)) items)
  | PStr s => inr (map (fun c => PStr (String c EmptyString))
                       (list_ascii_of_string s))
  | _ => inl TypeError
  end.

Section Formatting.
(** [repr] of a [str]: quoting and escaping are Python's business. *)
Variable repr_str : string -> string.

Fixpoint repr (v : pyval) : string :=
  match v with
  | PNone => "None"
  | PBool true => "True"
  | PBool false => "False"
  | PInt n => pretty n
  | PFloat shown => shown
  | PStr s => repr_str s
  | PList items => "[" +:+ PyStr.join ", " (map repr items) +:+ "]"
  | PDict items =>
      "{" +:+ PyStr.join ", "
              (map (fun kv => repr_str (fst kv) +:+ ": " +:+ repr (snd kv))
                   items)
          +:+ "}"
  end.

(** [str(v)], which is what an f-string placeholder [{v}] inserts. *)
Definition str (v : pyval) : string :=
  match v with
  | PStr s => s
  | _ => repr v
  end.
End Formatting.

(** Truthiness of an optional string, as [all([...])] tests it:
    [None] and [''] are false. *)
Definition truthy (v : option string) : bool :=
  match v with
  | Some s => PyStr.nonempty s
  | None => false
  end.

(** [f"{v}"] for a value that is a [str] or [None]. *)
Definition str_opt (v : option string) : string :=
  match v with
  | Some s => s
  | None => "None"
  end.

End PyVal.
Export PyVal.

(* ===================================================================== *)
(** ** The libraries and services around the script *)
(* ===================================================================== *)

(** [urllib.parse.ParseResult]. *)
Record ParseResult : Type := mkParseResult {
  scheme : string;
  netloc : string;
  path : string;
  params : string;
  query : string;
  fragment : string
}.

(** The arguments of one [requests.get] call.  [req_params] is empty when
    the call passes no [params]. *)
Record Request : Type := mkRequest {
  req_url : string;
  req_headers : gmap string string;
  req_params : list (string * pyval)
}.

(** What the script reads of a [requests.Response]: the status, the body
    as text and the body decoded as JSON ([None] when it does not
    decode). *)
Record Response : Type := mkResponse {
  status_code : Z;
  text : string;
  json : option pyval
}.

(** The arguments of the [ChatGoogleGenerativeAI] constructor. *)
Record ChatModel : Type := mkChatModel {
  model : string;
  temperature : string
}.

(** Everything the script imports.  [World] is whatever the network and
    the model service remember between two calls. *)
Class Platform : Type := {
  World : Type;
  (** [urllib.parse.urlparse] *)
  urlparse : string -> ParseResult;
  (** [requests.get]: the answer, or the exception of a failed transport *)
  requests_get : Request -> World -> result Response * World;
  (** [ChatGoogleGenerativeAI(model=..., temperature=...)]: the client is
      built, or the constructor raises (no credentials, say) *)
  chat_new : ChatModel -> World -> result unit * World;
  (** [llm.invoke(prompt).content], a [str] or whatever else the model
      library puts there *)
  chat_invoke : ChatModel -> string -> World -> result pyval * World;
  (** [open(name, "w")]: the file is there and empty, or [open] raises *)
  fs_open : string -> World -> result unit * World;
  (** [repr] of a [str] *)
  repr_str : string -> string;
  (** [int(s)] for a [str] *)
  int_of_str : string -> result Z
}.

(** [response.raise_for_status()]: requests raises for 4xx and 5xx. *)
Definition raise_for_status (r : Response) : result unit :=
  if (400 <=? status_code r) && (status_code r <? 600)
  then inl (HTTPError (status_code r))
  else inr tt.

(** [response.json()]. *)
Definition response_json (r : Response) : result pyval :=
  match json r with
  | Some v => inr v
  | None => inl JSONDecodeError
  end.

(** An answer on which [raise_for_status] raises. *)
Definition failed (r : Response) : Prop :=
  400 <= status_code r < 600.

(* ===================================================================== *)
(** ** The monad of the script *)
(* ===================================================================== *)

Section Monad.
Context `{P : Platform}.

(** One exchange with the API: what was sent and what came back. *)
Definition Exchange : Type := (Request * result Response)%type.

(** The process and its surroundings.  The three logs grow at the end. *)
Record State : Type := mkState {
  environ : gmap string string;         (* os.environ, after load_dotenv *)
  world : World;
  http_log : list Exchange;             (* every requests.get so far *)
  chat_log : list (ChatModel * string); (* every llm.invoke so far *)
  stdout : list string;                 (* every print so far *)
  disk : gmap string string             (* files written so far *)
}.

Definition M (A : Type) : Type := State -> result A * State.

Definition ret {A} (x : A) : M A := fun s => (inr x, s).

Definition raise {A} (e : exn) : M A := fun s => (inl e, s).

Definition bind {A B} (c : M A) (k : A -> M B) : M B :=
  fun s =>
    match c s with
    | (inr x, s') => k x s'
    | (inl e, s') => (inl e, s')
    end.

(** A pure computation that may raise. *)
Definition lift {A} (r : result A) : M A :=
  match r with
  | inr x => ret x
  | inl e => raise e
  end.

End Monad.

Notation "'let*' x ':=' c 'in' k" := (bind c (fun x => k))
  (at level 10, x name, c at level 100, k at level 200).
Notation "'let*' ' pat ':=' c 'in' k" :=
  (bind c (fun x => match x with pat => k end))
  (at level 10, pat pattern, c at level 100, k at level 200).

Section Effects.
Context `{P : Platform}.

(** [os.getenv(name)]. *)
Definition getenv (name : string) : M (option string) :=
  fun s => (inr (environ s !! name), s).

(** [print(line)]. *)
Definition print (line : string) : M unit :=
  fun s => (inr tt, mkState (environ s) (world s) (http_log s) (chat_log s)
                            (stdout s ++ [line]) (disk s)).

(** [requests.get(url, headers=..., params=...)]. *)
Definition http_get (rq : Request) : M Response :=
  fun s =>
    let (answer, w) := requests_get rq (world s) in
    (answer, mkState (environ s) w (http_log s ++ [(rq, answer)]) (chat_log s)
                     (stdout s) (disk s)).

(** [ChatGoogleGenerativeAI(model=..., temperature=...)]. *)
Definition construct (config : ChatModel) : M ChatModel :=
  fun s =>
    let (built, w) := chat_new config (world s) in
    (match built with
     | inr _ => inr config
     | inl e => inl e
     end,
     mkState (environ s) w (http_log s) (chat_log s) (stdout s) (disk s)).

(** [llm.invoke(prompt).content]. *)
Definition invoke (llm : ChatModel) (prompt : string) : M pyval :=
  fun s =>
    let (answer, w) := chat_invoke llm prompt (world s) in
    (answer, mkState (environ s) w (http_log s) (chat_log s ++ [(llm, prompt)])
                     (stdout s) (disk s)).

(** [open(name, "w")]: once it returns, the file exists and is empty. *)
Definition open_w (name : string) : M unit :=
  fun s =>
    let (opened, w) := fs_open name (world s) in
    (opened,
     mkState (environ s) w (http_log s) (chat_log s) (stdout s)
       (match opened with
        | inr _ => <[name := EmptyString]> (disk s)
        | inl _ => disk s
        end)).

(** [f.write(content)] on the file opened as [name]: a [str] is written,
    anything else raises [TypeError] and leaves the file as it is. *)
Definition file_write (name : string) (content : pyval) : M unit :=
  fun s =>
    match content with
    | PStr text =>
        (inr tt, mkState (environ s) (world s) (http_log s) (chat_log s)
                         (stdout s) (<[name := text]> (disk s)))
    | _ => (inl TypeError, s)
    end.

(** A [for] loop (or a comprehension) that collects one value per item;
    an exception in the body ends the loop and drops what was collected. *)
Fixpoint for_each {A B} (body : A -> M B) (items : list A) : M (list B) :=
  match items with
  | [] => ret []
  | x :: rest =>
      let* y := body x in
      let* ys := for_each body rest in
      ret (y :: ys)
  end.

End Effects.

(* ===================================================================== *)
(** ** The script *)
(* ===================================================================== *)

(** The dict that [get_commit_history] builds for one commit.  The four
    values copied from the API keep whatever type the JSON gave them. *)
Record CommitRecord : Type := mkCommitRecord {
  sha : pyval;
  message : pyval;
  author : pyval;
  date : pyval;
  files : list string;
  diff : string
}.

(** The same dict as a Python value, keys in the order of the literal. *)
Definition commit_dict (c : CommitRecord) : pyval :=
  PDict [("sha", sha c); ("message", message c); ("author", author c);
         ("date", date c); ("files", PList (map PStr (files c)));
         ("diff", PStr (diff c))].

(** The attributes of a [GitHubRepoAnalyzer] instance. *)
Record GitHubRepoAnalyzer : Type := mkAnalyzer {
  repo_url : string;
  branch : string;
  headers : gmap string string;
  owner : string;
  repo : string
}.

(** The text of the prompt before and after the [{commits}] placeholder. *)
Definition prompt_head : string :=
"Analyze these GitHub commits from a specific branch and generate detailed release notes. 
    Focus on:
    - Code changes in diffs
    - File modification types (added/modified/deleted)
    - Commit message patterns
    - Impact analysis of changes

    Structure:
    1. Overview of changes
    2. Technical breakdown by category
    3. Notable code modifications
    4. Files changed summary

    Commits to analyze:
    ".

Definition prompt_tail : string :=
"
    
    Output in markdown with technical depth. Highlight significant code changes.
    ".

Definition missing_settings : string :=
  "Missing required environment variables: REPO_URL, BRANCH_NAME".

Definition accept_json : string := "application/vnd.github+json".
Definition accept_diff : string := "application/vnd.github.v3.diff".

Section Script.
Context `{P : Platform}.

Abbreviation str := (PyVal.str repr_str).
Abbreviation repr := (PyVal.repr repr_str).

(** [GitHubRepoAnalyzer._parse_repo_url], as a function of
    [self.repo_url]. *)
Definition _parse_repo_url (url : string) : result (string * string) :=
  let path := PyStr.strip "/" (path (urlparse url)) in
  let parts := PyStr.split "/" path in
  match parts !! 0%nat, parts !! 1%nat with
  | Some p0, Some p1 => inr (p0, p1)
  | _, _ => inl IndexError
  end.

(** The dict literal assigned to [self.headers]; [token] is what
    [os.getenv('GITHUB_TOKEN')] returned. *)
Definition default_headers (token : option string) : gmap string string :=
  <["Accept" := accept_json]>
    (<["Authorization" := "Bearer " +:+ str_opt token]> ∅).

(** [GitHubRepoAnalyzer.__init__]. *)
Definition __init__ (repo_url branch_name : string) : M GitHubRepoAnalyzer :=
  let* token := getenv "GITHUB_TOKEN" in
  let headers := default_headers token in
  let* '(owner, repo) := lift (_parse_repo_url repo_url) in
  let* _ := print ("Initialized GitHubRepoAnalyzer for repo: " +:+ repo_url
                   +:+ " on branch: " +:+ branch_name) in
  ret (mkAnalyzer repo_url branch_name headers owner repo).

(** The URL shared by the details and the diff request of one commit. *)
Definition commit_url (self : GitHubRepoAnalyzer) (sha : pyval) : string :=
  "https://api.github.com/repos/" +:+ owner self +:+ "/" +:+ repo self
  +:+ "/commits/" +:+ str sha.

(** The arguments that [_get_commit_details] passes to [requests.get]. *)
Definition details_request (self : GitHubRepoAnalyzer) (sha : pyval)
  : Request :=
  let url := commit_url self sha in
  mkRequest url (headers self) [].

(** [GitHubRepoAnalyzer._get_commit_details]. *)
Definition _get_commit_details (self : GitHubRepoAnalyzer) (sha : pyval)
  : M pyval :=
  let* response := http_get (details_request self sha) in
  let* _ := lift (raise_for_status response) in
  lift (response_json response).

(** The arguments that [_get_commit_diff] passes to [requests.get]. *)
Definition diff_request (self : GitHubRepoAnalyzer) (sha : pyval)
  : Request :=
  let url := commit_url self sha in
  let headers := <["Accept" := accept_diff]> (headers self) in
  mkRequest url headers [].

(** [GitHubRepoAnalyzer._get_commit_diff]. *)
Definition _get_commit_diff (self : GitHubRepoAnalyzer) (sha : pyval)
  : M string :=
  let* response := http_get (diff_request self sha) in
  let* _ := lift (raise_for_status response) in
  ret (text response).

(** The comprehension of line 40: one formatted entry per file. *)
Definition format_file (f : pyval) : M string :=
  let* filename := lift (getitem f "filename") in
  let* changes := lift (getitem f "changes") in
  ret (str filename +:+ " (" +:+ str changes +:+ " changes)").

(** The body of the loop of [get_commit_history], in evaluation order. *)
Definition commit_record (self : GitHubRepoAnalyzer) (commit : pyval)
  : M CommitRecord :=
  let* sha0 := lift (getitem commit "sha") in
  let* commit_details := _get_commit_details self sha0 in
  let* files := lift (getitem commit_details "files") in
  let* files := lift (iter files) in
  let* formatted_files := for_each format_file files in
  let* sha := lift (getitem commit "sha") in
  let* inner := lift (getitem commit_details "commit") in
  let* message := lift (getitem inner "message") in
  let* inner := lift (getitem commit_details "commit") in
  let* person := lift (getitem inner "author") in
  let* author := lift (getitem person "name") in
  let* inner := lift (getitem commit_details "commit") in
  let* person := lift (getitem inner "author") in
  let* date := lift (getitem person "date") in
  let* sha1 := lift (getitem commit "sha") in
  let* diff := _get_commit_diff self sha1 in
  ret (mkCommitRecord sha message author date formatted_files diff).

(** The arguments that [get_commit_history] passes to [requests.get]. *)
Definition list_request (self : GitHubRepoAnalyzer) (max_commits : Z)
  : Request :=
  let url := "https://api.github.com/repos/" +:+ owner self +:+ "/"
             +:+ repo self +:+ "/commits" in
  let params := [("per_page", PInt max_commits); ("sha", PStr (branch self))] in
  mkRequest url (headers self) params.

(** [GitHubRepoAnalyzer.get_commit_history]. *)
Definition get_commit_history (self : GitHubRepoAnalyzer) (max_commits : Z)
  : M (list CommitRecord) :=
  let rq := list_request self max_commits in
  let* _ := print ("Fetching commit history from " +:+ req_url rq
                   +:+ " with params: " +:+ repr (PDict (req_params rq))) in
  let* response := http_get rq in
  let* _ := lift (raise_for_status response) in
  let* listed := lift (response_json response) in
  let* listed := lift (iter listed) in
  let* commits := for_each (commit_record self) listed in
  let* _ := print ("Retrieved " +:+ pretty (Z.of_nat (length commits))
                   +:+ " commits.") in
  ret commits.

(** [GitHubRepoAnalyzer._format_file_changes]. *)
Definition _format_file_changes (files : list pyval) : M (list pyval) :=
  for_each (fun f =>
    let* filename := lift (getitem f "filename") in
    let* status := lift (getitem f "status") in
    let* additions := lift (getitem f "additions") in
    let* deletions := lift (getitem f "deletions") in
    let* changes := lift (getitem f "changes") in
    ret (PDict [("filename", filename); ("status", status);
                ("additions", additions); ("deletions", deletions);
                ("changes", changes)])) files.

(** The prompt of [generate_release_notes]: the f-string with
    [str(commits)] in place of [{commits}]. *)
Definition prompt_of (commits : list CommitRecord) : string :=
  prompt_head +:+ str (PList (map commit_dict commits)) +:+ prompt_tail.

(** The arguments that [generate_release_notes] gives the constructor. *)
Definition llm : ChatModel := mkChatModel "gemini-1.5-flash-latest" "0.2".

(** [generate_release_notes]. *)
Definition generate_release_notes (commits : list CommitRecord) : M pyval :=
  let* client := construct llm in
  let prompt := prompt_of commits in
  let* content := invoke client prompt in
  ret content.

(** The lines that the [__main__] block prints for one commit. *)
Definition print_commit (c : CommitRecord) : M unit :=
  let* _ := print ("- SHA: " +:+ str (sha c)) in
  let* _ := print ("  Message: " +:+ str (message c)) in
  let* _ := print ("  Author: " +:+ str (author c)) in
  let* _ := print ("  Date: " +:+ str (date c)) in
  print ("  Files Changed: " +:+ PyStr.join ", " (files c)).

(** [int(os.getenv("MAX_COMMITS", 2))]. *)
Definition max_commits_setting (v : option string) : result Z :=
  match v with
  | Some s => int_of_str s
  | None => inr 2
  end.

(** The [__main__] block.  Past the check both settings are non-empty
    strings, so [str_opt] only unwraps them. *)
Definition main : M unit :=
  let* REPO_URL := getenv "REPO_URL" in
  let* MAX_COMMITS := getenv "MAX_COMMITS" in
  let* MAX_COMMITS := lift (max_commits_setting MAX_COMMITS) in
  let* BRANCH_NAME := getenv "BRANCH_NAME" in
  if negb (forallb truthy [REPO_URL; BRANCH_NAME]) then
    raise (ValueError missing_settings)
  else
    let REPO_URL := str_opt REPO_URL in
    let BRANCH_NAME := str_opt BRANCH_NAME in
    let* analyzer := __init__ REPO_URL BRANCH_NAME in
    let* commits := get_commit_history analyzer MAX_COMMITS in
    let* _ := print "Commits:" in
    let* _ := for_each print_commit commits in
    let* release_notes := generate_release_notes commits in
    let* _ := print (String "010" "Release Notes for " +:+ REPO_URL
                     +:+ " (Branch: " +:+ BRANCH_NAME +:+ ")") in
    let* _ := print (str release_notes) in
    let* _ := open_w "../release_notes.md" in
    file_write "../release_notes.md" release_notes.

End Script.

(* ===================================================================== *)
(** ** A canned platform for running the script *)
(* ===================================================================== *)

Module Fixture.

(** One commit of the canned repository. *)
Record Canned : Type := mkCanned {
  c_sha : string;
  c_message : string;
  c_author : string;
  c_date : string;
  c_files : list (string * Z);
  c_diff : string
}.

Definition stub (c : Canned) : pyval := PDict [("sha", PStr (c_sha c))].

Definition detail (c : Canned) : pyval :=
  PDict [("sha", PStr (c_sha c));
         ("commit", PDict [("message", PStr (c_message c));
                           ("author", PDict [("name", PStr (c_author c));
                                             ("date", PStr (c_date c))])]);
         ("files", PList (map (fun f => PDict [("filename", PStr (fst f));
                                               ("changes", PInt (snd f))])
                              (c_files c)))].

(** The repository [octo/demo]: its commits, newest first, and the status
    the server gives to the requests about one chosen commit. *)
Record Repo : Type := mkRepo {
  commits : list Canned;
  broken : string;
  broken_status : Z
}.

Definition base : string := "https://api.github.com/repos/octo/demo/commits".

Definition per_page (rq : Request) : nat :=
  match dict_get (req_params rq) "per_page" with
  | Some (PInt n) => Z.to_nat n
  | _ => 30%nat
  end.

Definition not_found : Response := mkResponse 404 "Not Found" None.

Fixpoint serve_commit (accept : option string) (url : string) (r : Repo)
  (cs : list Canned) : Response :=
  match cs with
  | [] => not_found
  | c :: rest =>
      if String.eqb url (base +:+ "/" +:+ c_sha c) then
        if String.eqb (c_sha c) (broken r)
        then mkResponse (broken_status r) EmptyString None
        else if bool_decide (accept = Some accept_diff)
             then mkResponse 200 (c_diff c) None
             else mkResponse 200 EmptyString (Some (detail c))
      else serve_commit accept url r rest
  end.

(** The server honours [per_page] on the list call. *)
Definition serve (rq : Request) (r : Repo) : result Response * Repo :=
  if String.eqb (req_url rq) base
  then (inr (mkResponse 200 EmptyString
               (Some (PList (map stub (take (per_page rq) (commits r)))))), r)
  else (inr (serve_commit (req_headers rq !! "Accept") (req_url rq) r
               (commits r)), r).

(** Digits only. *)
Definition int_of_digits (s : string) : result Z :=
  match s with
  | "1" => inr 1 | "2" => inr 2 | "3" => inr 3 | "5" => inr 5
  | "10" => inr 10
  | _ => inl (ValueError "invalid literal for int()")
  end.

(** The URLs the examples use. *)
Definition parse (url : string) : ParseResult :=
  if String.eqb url "https://github.com/octo/demo"
  then mkParseResult "https" "github.com" "/octo/demo" EmptyString EmptyString EmptyString
  else if String.eqb url "https://github.com/octo//demo?tab=readme"
  then mkParseResult "https" "github.com" "/octo//demo" EmptyString "tab=readme" EmptyString
  else if String.eqb url "http://example.org/octo/demo/tree/main?x=1#top"
  then mkParseResult "http" "example.org" "/octo/demo/tree/main" EmptyString "x=1" "top"
  else mkParseResult EmptyString EmptyString url EmptyString EmptyString EmptyString.

#[local] Instance platform : Platform := {|
  World := Repo;
  urlparse := parse;
  requests_get := serve;
  chat_new := fun _ r => (inr tt, r);
  chat_invoke := fun _ prompt r => (inr (PStr "# Release notes"), r);
  fs_open := fun _ r => (inr tt, r);
  repr_str := fun s => "'" +:+ s +:+ "'";
  int_of_str := int_of_digits
|}.

Definition c1 : Canned :=
  mkCanned "a1b2" "Fix parser" "Ada" "2024-05-02T10:00:00Z"
           [("src/parser.py", 4)] "@@ -1 +1 @@".

Definition c2 : Canned :=
  mkCanned "c3d4" "Add tests" "Bob" "2024-05-01T09:00:00Z"
           [("tests/test_parser.py", 12); ("README.md", 1)] "@@ -0,0 +1 @@".

Definition healthy : Repo := mkRepo [c1; c2] EmptyString 200.
Definition single : Repo := mkRepo [c1] EmptyString 200.
Definition failing : Repo := mkRepo [c1; c2] "c3d4" 500.

Definition settings : gmap string string :=
  <["REPO_URL" := "https://github.com/octo/demo"]>
    (<["BRANCH_NAME" := "main"]> ∅).

Definition boot (env : gmap string string) (r : Repo) : State :=
  mkState env r [] [] [] ∅.

Definition with_token : gmap string string :=
  <["GITHUB_TOKEN" := "t0k"]> settings.

(** The analyzer that [__init__] builds from [with_token]. *)
Definition octo : GitHubRepoAnalyzer :=
  mkAnalyzer "https://github.com/octo/demo" "main"
    (default_headers (Some "t0k")) "octo" "demo".

(** The records that the script builds for [c1] and [c2]. *)
Definition r1 : CommitRecord :=
  mkCommitRecord (PStr "a1b2") (PStr "Fix parser") (PStr "Ada")
    (PStr "2024-05-02T10:00:00Z") ["src/parser.py (4 changes)"]
    "@@ -1 +1 @@".

Definition r2 : CommitRecord :=
  mkCommitRecord (PStr "c3d4") (PStr "Add tests") (PStr "Bob")
    (PStr "2024-05-01T09:00:00Z")
    ["tests/test_parser.py (12 changes)"; "README.md (1 changes)"]
    "@@ -0,0 +1 @@".

(** [get_commit_history(2)] on each of the three repositories. *)
Definition history (r : Repo) : result (list CommitRecord) * State :=
  get_commit_history octo 2 (boot with_token r).

End Fixture.

(* ===================================================================== *)
(** ** A scripted platform: the answers are given in advance *)
(* ===================================================================== *)

Module Scripted.

(** The network hands out the queued answers in order, whatever is
    asked, and refuses once the queue is empty. *)
Definition next_answer (rq : Request) (queue : list (result Response))
  : result Response * list (result Response) :=
  match queue with
  | [] => (inl (RequestException "no answer left"), [])
  | answer :: rest => (answer, rest)
  end.

#[local] Instance platform : Platform := {|
  World := list (result Response);
  urlparse := Fixture.parse;
  requests_get := next_answer;
  chat_new := fun _ queue => (inr tt, queue);
  chat_invoke := fun _ prompt queue => (inr (PStr "# Release notes"), queue);
  fs_open := fun _ queue => (inr tt, queue);
  repr_str := fun s => "'" +:+ s +:+ "'";
  int_of_str := Fixture.int_of_digits
|}.

Definition boot (env : gmap string string) (queue : list (result Response))
  : State :=
  mkState env queue [] [] [] ∅.

Definition ok_json (v : pyval) : result Response :=
  inr (mkResponse 200 EmptyString (Some v)).

(** The connection drops on the second request. *)
Definition dropped : list (result Response) :=
  [ok_json (PList [Fixture.stub Fixture.c1]);
   inl (RequestException "connection reset")].

(** The list answer is a page of HTML. *)
Definition html : list (result Response) :=
  [inr (mkResponse 200 "<html></html>" None)].

(** The second entry of the list answer has no [sha]. *)
Definition shaless : list (result Response) :=
  [ok_json (PList [Fixture.stub Fixture.c1; PDict [("node_id", PStr "x")]]);
   ok_json (Fixture.detail Fixture.c1);
   inr (mkResponse 200 "@@ -1 +1 @@" None)].

(** The list call is answered with three entries, whatever was asked. *)
Definition generous : list (result Response) :=
  [ok_json (PList [Fixture.stub Fixture.c1; Fixture.stub Fixture.c2;
                   Fixture.stub Fixture.c1]);
   ok_json (Fixture.detail Fixture.c1);
   inr (mkResponse 200 "@@ -1 +1 @@" None);
   ok_json (Fixture.detail Fixture.c2);
   inr (mkResponse 200 "@@ -0,0 +1 @@" None);
   ok_json (Fixture.detail Fixture.c1);
   inr (mkResponse 200 "@@ -1 +1 @@" None)].

(** The diff call is answered with a redirection that was not followed. *)
Definition redirected : list (result Response) :=
  [ok_json (PList [Fixture.stub Fixture.c1]);
   ok_json (Fixture.detail Fixture.c1);
   inr (mkResponse 302 "@@ -1 +1 @@" None)].

(** A file as the API describes it, and the dict that
    [_format_file_changes] makes of it. *)
Definition file : pyval :=
  PDict [("sha", PStr "f00"); ("filename", PStr "src/parser.py");
         ("status", PStr "modified"); ("additions", PInt 3);
         ("deletions", PInt 1); ("changes", PInt 4);
         ("patch", PStr "@@ -1 +1 @@")].

Definition summary : pyval :=
  PDict [("filename", PStr "src/parser.py"); ("status", PStr "modified");
         ("additions", PInt 3); ("deletions", PInt 1); ("changes", PInt 4)].

End Scripted.

(* ===================================================================== *)
(** ** A platform without credentials for the model *)
(* ===================================================================== *)

Module Keyless.

(** As [Scripted], but the constructor of the model client raises. *)
#[local] Instance platform : Platform := {|
  World := list (result Response);
  urlparse := Fixture.parse;
  requests_get := Scripted.next_answer;
  chat_new := fun _ queue => (inl (ModelError "no API key"), queue);
  chat_invoke := fun _ prompt queue => (inr (PStr "# Release notes"), queue);
  fs_open := fun _ queue => (inr tt, queue);
  repr_str := fun s => "'" +:+ s +:+ "'";
  int_of_str := Fixture.int_of_digits
|}.

Definition boot : State := mkState ∅ [] [] [] [] ∅.

End Keyless.

(* ===================================================================== *)
(** ** What a run leaves behind *)
(* ===================================================================== *)

Section Observations.
Context `{P : Platform}.

(** The answer of an exchange carries a status on which
    [raise_for_status] raises. *)
Definition failed_exchange (x : Exchange) : Prop :=
  exists resp, x.2 = inr resp /\ failed resp.

(** A run that saw a failed exchange ended with its [HTTPError]. *)
Definition aborts {A} (l : list Exchange) (r : result A) : Prop :=
  Exists failed_exchange l ->
  exists status, 400 <= status < 600 /\ r = inl (HTTPError status).

(** [entry] is the text that line 40 builds for the file [f]. *)
Definition formatted (f : pyval) (entry : string) : Prop :=
  exists filename changes,
    getitem f "filename" = inr filename /\
    getitem f "changes" = inr changes /\
    entry = PyVal.str repr_str filename +:+ " ("
            +:+ PyVal.str repr_str changes +:+ " changes)".

(** The answer [resp] to a details request lists the files from which
    the [files] field of [rec] was formatted, one entry per file, in
    order. *)
Definition files_from (resp : Response) (rec : CommitRecord) : Prop :=
  exists details listing changed,
    json resp = Some details /\
    getitem details "files" = inr listing /\
    iter listing = inr changed /\
    Forall2 formatted changed (files rec).

(** The record [rec] was built for the list entry [commit] with the two
    exchanges [l]. *)
Definition built_from (self : GitHubRepoAnalyzer) (commit : pyval)
  (rec : CommitRecord) (l : list Exchange) : Prop :=
  exists resp1 resp2,
    l = [(details_request self (sha rec), inr resp1);
         (diff_request self (sha rec), inr resp2)] /\
    getitem commit "sha" = inr (sha rec) /\
    ~ failed resp1 /\ ~ failed resp2 /\
    files_from resp1 rec /\
    diff rec = text resp2.

(** The records [recs] were built for the list entries [listed], one
    after the other, with the exchanges [l]. *)
Fixpoint built_all (self : GitHubRepoAnalyzer) (listed : list pyval)
  (recs : list CommitRecord) (l : list Exchange) : Prop :=
  match listed, recs with
  | [], [] => l = []
  | commit :: listed', rec :: recs' =>
      exists l1 l2, l = l1 ++ l2 /\ built_from self commit rec l1
                    /\ built_all self listed' recs' l2
  | _, _ => False
  end.

(** A request that the loop of [get_commit_history] can send. *)
Definition commit_call (self : GitHubRepoAnalyzer) (x : Exchange) : Prop :=
  exists sha, x.1 = details_request self sha \/ x.1 = diff_request self sha.

(** The requests of a successful run, in order. *)
Definition calls_for (self : GitHubRepoAnalyzer) (max_commits : Z)
  (recs : list CommitRecord) : list Request :=
  list_request self max_commits
  :: flat_map (fun rec => [details_request self (sha rec);
                           diff_request self (sha rec)]) recs.

(** [Q] holds of the exchanges that [c] adds to the log from [s] and of
    its outcome. *)
Definition post {A} (c : M A) (s : State)
  (Q : list Exchange -> result A -> Prop) : Prop :=
  exists l, http_log (c s).2 = http_log s ++ l /\ Q l (c s).1.

(** [c] never touches the network. *)
Definition quiet {A} (c : M A) : Prop :=
  forall s, post c s (fun l _ => l = []).

(** What [commit_record] guarantees. *)
Definition commit_post (self : GitHubRepoAnalyzer) (commit : pyval)
  (l : list Exchange) (r : result CommitRecord) : Prop :=
  Forall (commit_call self) l /\ aborts l r /\
  forall rec, r = inr rec -> built_from self commit rec l.

(** What the loop of [get_commit_history] guarantees. *)
Definition loop_post (self : GitHubRepoAnalyzer) (listed : list pyval)
  (l : list Exchange) (r : result (list CommitRecord)) : Prop :=
  Forall (commit_call self) l /\ aborts l r /\
  forall recs, r = inr recs -> built_all self listed recs l.

(** What [get_commit_history] guarantees. *)
Definition history_post (self : GitHubRepoAnalyzer) (max_commits : Z)
  (l : list Exchange) (r : result (list CommitRecord)) : Prop :=
  exists answer rest,
    l = (list_request self max_commits, answer) :: rest /\
    Forall (commit_call self) rest /\ aborts l r /\
    forall recs, r = inr recs ->
      exists resp listed entries,
        answer = inr resp /\ ~ failed resp /\
        json resp = Some listed /\ iter listed = inr entries /\
        built_all self entries recs rest.

End Observations.

(* ===================================================================== *)
(** ** Further vocabulary: transport errors, frames, merged records *)
(* ===================================================================== *)

Section Outcomes.
Context `{P : Platform}.

(** A run that saw [requests.get] raise ended with that exception. *)
Definition relays {A} (l : list Exchange) (r : result A) : Prop :=
  forall rq e, (rq, inl e) ∈ l -> r = inl e.

(** The fields of [rec] other than [files] are read from the answer
    [resp1] to its details request and the answer [resp2] to its diff
    request, at the places line 43 to 47 name. *)
Definition fields_from (resp1 resp2 : Response) (rec : CommitRecord) : Prop :=
  exists details inner person,
    json resp1 = Some details /\
    getitem details "commit" = inr inner /\
    getitem inner "message" = inr (message rec) /\
    getitem inner "author" = inr person /\
    getitem person "name" = inr (author rec) /\
    getitem person "date" = inr (date rec) /\
    diff rec = text resp2.

(** [rec] merges two answers found among the exchanges [l]. *)
Definition merged (self : GitHubRepoAnalyzer) (l : list Exchange)
  (rec : CommitRecord) : Prop :=
  exists resp1 resp2,
    (details_request self (sha rec), inr resp1) ∈ l /\
    (diff_request self (sha rec), inr resp2) ∈ l /\
    fields_from resp1 resp2 rec.

(** What [commit_record] guarantees beyond [commit_post]. *)
Definition commit_bounds (self : GitHubRepoAnalyzer)
  (l : list Exchange) (r : result CommitRecord) : Prop :=
  (length l <= 2)%nat /\ relays l r /\
  forall rec, r = inr rec -> merged self l rec.

(** What the loop guarantees beyond [loop_post]. *)
Definition loop_bounds (self : GitHubRepoAnalyzer) (listed : list pyval)
  (l : list Exchange) (r : result (list CommitRecord)) : Prop :=
  (length l <= 2 * length listed)%nat /\ relays l r /\
  forall recs, r = inr recs -> Forall (merged self l) recs.

(** What [get_commit_history] guarantees beyond [history_post]: after
    the list call, either nothing more is sent or the list answer was
    read and at most two requests per entry follow. *)
Definition history_bounds (self : GitHubRepoAnalyzer) (max_commits : Z)
  (l : list Exchange) (r : result (list CommitRecord)) : Prop :=
  exists answer rest,
    l = (list_request self max_commits, answer) :: rest /\
    relays l r /\
    (forall recs, r = inr recs -> Forall (merged self rest) recs) /\
    (rest = [] \/
     exists resp listed entries,
       answer = inr resp /\ json resp = Some listed /\
       iter listed = inr entries /\
       (length rest <= 2 * length entries)%nat).

(** Between [s] and [s'] the environment, the model log and the files
    are the same. *)
Definition offline (s s' : State) : Prop :=
  environ s' = environ s /\ chat_log s' = chat_log s /\ disk s' = disk s.

(** [c] reads and writes nothing but the network and the console. *)
Definition untouched {A} (c : M A) : Prop :=
  forall s, offline s (c s).2.


(** The address under which all commits of the repository live. *)
Definition commits_url (self : GitHubRepoAnalyzer) : string :=
  "https://api.github.com/repos/" +:+ owner self +:+ "/" +:+ repo self
  +:+ "/commits".

(** [d] is the dict that [_format_file_changes] builds for the file [f]. *)
Definition summarises (f d : pyval) : Prop :=
  exists filename status additions deletions changes,
    getitem f "filename" = inr filename /\
    getitem f "status" = inr status /\
    getitem f "additions" = inr additions /\
    getitem f "deletions" = inr deletions /\
    getitem f "changes" = inr changes /\
    d = PDict [("filename", filename); ("status", status);
               ("additions", additions); ("deletions", deletions);
               ("changes", changes)].



End Outcomes.

(* ===================================================================== *)
(** ** Facts about [strip] and [split] *)
(* ===================================================================== *)

Module PyStrFacts.
Import PyStr.

#[local] Arguments mem : simpl never.

Lemma mem_slash c : mem c "/" = Ascii.eqb c slash.
Proof. unfold slash, mem. destruct (Ascii.eqb c _); reflexivity. Qed.

Lemma split_not_nil sep s : split sep s <> [].
Proof.
  destruct s as [|c s]; simpl; [easy|].
  destruct (Ascii.eqb c sep); [easy|].
  now destruct (split sep s).
Qed.

Lemma split_slash_free a : slash_free a = true -> split slash a = [a].
Proof.
  induction a as [|c a IH]; simpl; [easy|].
  intros [Hc Ha]%andb_prop. apply negb_true_iff in Hc.
  rewrite Hc, (IH Ha). reflexivity.
Qed.

Lemma split_piece a rest :
  slash_free a = true ->
  split slash (a +:+ String slash rest) = a :: split slash rest.
Proof.
  induction a as [|c a IH]; simpl; intros Ha.
  - reflexivity.
  - apply andb_prop in Ha as [Hc Ha]. apply negb_true_iff in Hc.
    unfold slash in *. rewrite Hc, (IH Ha). reflexivity.
Qed.

(** Slashes at the front only add empty pieces at the front. *)
Lemma split_leading lead s :
  all_slashes lead = true ->
  split slash (lead +:+ s) = repeat EmptyString (String.length lead) ++ split slash s.
Proof.
  induction lead as [|c lead IH]; simpl; intros H; [easy|].
  apply andb_prop in H as [Hc H]. unfold slash in *.
  rewrite Hc, (IH H). reflexivity.
Qed.

Lemma split_slashes trail :
  all_slashes trail = true ->
  split slash trail = EmptyString :: repeat EmptyString (String.length trail).
Proof.
  induction trail as [|c trail IH]; simpl; intros H; [easy|].
  apply andb_prop in H as [Hc H]. unfold slash in *.
  rewrite Hc, (IH H). reflexivity.
Qed.

(** Slashes at the back only add empty pieces at the back. *)
Lemma split_trailing s trail :
  all_slashes trail = true ->
  split slash (s +:+ trail) = split slash s ++ repeat EmptyString (String.length trail).
Proof.
  intros H. induction s as [|c s IH]; simpl.
  - now apply split_slashes.
  - rewrite IH. destruct (Ascii.eqb c slash); [easy|].
    pose proof (split_not_nil slash s).
    now destruct (split slash s).
Qed.

Lemma append_cons c a b : String c a +:+ b = String c (a +:+ b).
Proof. reflexivity. Qed.

Lemma lstrip_cut s :
  exists lead, s = lead +:+ lstrip "/" s /\ all_slashes lead = true.
Proof.
  induction s as [|c s [lead [E H]]]; simpl.
  - now exists EmptyString.
  - rewrite mem_slash. destruct (Ascii.eqb c slash) eqn:Hc.
    + exists (String c lead). rewrite append_cons, <- E. simpl.
      now rewrite Hc, H.
    + now exists EmptyString.
Qed.

Lemma rstrip_cut s :
  exists trail, s = rstrip "/" s +:+ trail /\ all_slashes trail = true.
Proof.
  induction s as [|c s [trail [E H]]]; simpl.
  - now exists EmptyString.
  - destruct (rstrip "/" s) as [|k kept] eqn:R.
    + rewrite mem_slash. destruct (Ascii.eqb c slash) eqn:Hc.
      * exists (String c trail). change (EmptyString +:+ trail) with trail in E.
        change (EmptyString +:+ String c trail) with (String c trail).
        simpl. now rewrite Hc, H, <- E.
      * exists trail. rewrite append_cons, <- E. easy.
    + exists trail. rewrite append_cons, <- E. easy.
Qed.

(** What [lstrip] leaves does not start with a slash. *)
Lemma lstrip_head s c rest :
  lstrip "/" s = String c rest -> Ascii.eqb c slash = false.
Proof.
  induction s as [|x s IH]; simpl; [easy|].
  rewrite mem_slash. destruct (Ascii.eqb x slash) eqn:Hx; [exact IH|].
  intros [= <- _]. exact Hx.
Qed.

(** [rstrip] keeps the first character of whatever it leaves. *)
Lemma rstrip_head s c rest :
  rstrip "/" s = String c rest -> exists rest', s = String c rest'.
Proof.
  destruct s as [|x s]; simpl; [easy|].
  destruct (rstrip "/" s).
  - destruct (mem x "/"); [easy|]. intros [= <- _]. eauto.
  - intros [= <- _]. eauto.
Qed.

Lemma strip_head p c rest :
  strip "/" p = String c rest -> Ascii.eqb c slash = false.
Proof.
  unfold strip. intros H.
  destruct (rstrip_head _ _ _ H) as [rest' E].
  exact (lstrip_head _ _ _ E).
Qed.

Lemma filter_repeat_empty n :
  filter (fun piece => nonempty piece = true) (repeat EmptyString n) = [].
Proof. induction n; simpl; [easy|]. exact IHn. Qed.

(** Stripping the path neither adds nor removes a non-empty piece. *)
Lemma segments_strip p :
  filter (fun piece => nonempty piece = true) (parts p) = segments p.
Proof.
  unfold parts, segments, strip.
  destruct (lstrip_cut p) as [lead [E1 H1]].
  destruct (rstrip_cut (lstrip "/" p)) as [trail [E2 H2]].
  rewrite E1 at 2. rewrite E2 at 2.
  rewrite (split_leading _ _ H1), (split_trailing _ _ H2).
  rewrite !filter_app, !filter_repeat_empty, app_nil_r. reflexivity.
Qed.

(** The first piece that [_parse_repo_url] indexes is empty only when it
    is the only one. *)
Lemma parts_head p x y rest : parts p = x :: y :: rest -> x <> EmptyString.
Proof.
  unfold parts. intros H ->.
  destruct (strip "/" p) as [|c s] eqn:E; [discriminate H|].
  apply strip_head in E. simpl in H. rewrite E in H.
  destruct (split slash s); discriminate H.
Qed.

Lemma lstrip_leading lead s :
  all_slashes lead = true -> lstrip "/" (lead +:+ s) = lstrip "/" s.
Proof.
  induction lead as [|c lead IH]; simpl; intros H; [reflexivity|].
  apply andb_prop in H as [Hc H].
  rewrite mem_slash, Hc. exact (IH H).
Qed.

(** A path of the shape [/owner/repo], with any number of leading
    slashes and with nothing or a slash and anything after [repo], has
    [owner] and [repo] as its first two pieces. *)
Lemma parts_owner_repo lead owner repo tail :
  all_slashes lead = true ->
  nonempty owner = true -> slash_free owner = true ->
  nonempty repo = true -> slash_free repo = true ->
  tail = EmptyString \/ (exists t, tail = String slash t) ->
  exists rest,
    parts (lead +:+ owner +:+ "/" +:+ repo +:+ tail) = owner :: repo :: rest.
Proof.
  intros Hlead Ho Hfo Hr Hfr Htail. unfold parts, strip.
  rewrite (lstrip_leading _ _ Hlead).
  assert (Hsplit : exists more,
             split slash (owner +:+ "/" +:+ repo +:+ tail)
             = owner :: repo :: more).
  { change (owner +:+ "/" +:+ repo +:+ tail)
      with (owner +:+ String slash (repo +:+ tail)).
    rewrite (split_piece _ _ Hfo).
    destruct Htail as [-> | [t ->]].
    - exists []. f_equal.
      replace (repo +:+ EmptyString) with repo.
      + now apply split_slash_free.
      + clear. induction repo as [|c repo IH]; [reflexivity|].
        rewrite append_cons. now f_equal.
    - exists (split slash t). now rewrite (split_piece _ _ Hfr). }
  destruct owner as [|c owner]; [discriminate Ho|].
  simpl in Hfo. apply andb_prop in Hfo as [Hc _]. apply negb_true_iff in Hc.
  rewrite append_cons in *. simpl lstrip. rewrite mem_slash, Hc.
  destruct Hsplit as [more Hsplit].
  destruct (rstrip_cut (String c (owner +:+ "/" +:+ repo +:+ tail)))
    as [trail [E Htrail]].
  rewrite E, (split_trailing _ _ Htrail) in Hsplit.
  destruct (split slash (rstrip "/" (String c (owner +:+ "/" +:+ repo +:+ tail))))
    as [|x [|y rest]] eqn:Hparts.
  - now apply split_not_nil in Hparts.
  - simpl in Hsplit. injection Hsplit as _ Hrest.
    destruct (String.length trail); simpl in Hrest; [discriminate Hrest|].
    injection Hrest as <- _. discriminate Hr.
  - simpl in Hsplit. injection Hsplit as -> -> _. now exists rest.
Qed.

End PyStrFacts.

(* ===================================================================== *)
(** ** Parsing the repository URL *)
(* ===================================================================== *)

Section Parsing.
Context `{P : Platform}.
Import PyStr PyStrFacts.

(** [_parse_repo_url] returns the first two [parts] of the path, and
    raises when there are fewer. *)
Lemma parse_repo_url_parts url :
  _parse_repo_url url =
  match parts (path (urlparse url)) with
  | a :: b :: _ => inr (a, b)
  | _ => inl IndexError
  end.
Proof.
  unfold _parse_repo_url, parts, slash.
  destruct (split "/" (strip "/" (path (urlparse url)))) as [|a [|b rest]];
    reflexivity.
Qed.

(** X3.  On a path of the shape [/owner/repo] or [/owner/repo/...],
    [_parse_repo_url] succeeds with [(owner, repo)]. *)
Lemma parse_repo_url_owner_repo url lead owner repo tail :
  path (urlparse url) = lead +:+ owner +:+ "/" +:+ repo +:+ tail ->
  all_slashes lead = true ->
  nonempty owner = true -> slash_free owner = true ->
  nonempty repo = true -> slash_free repo = true ->
  tail = EmptyString \/ (exists t, tail = String slash t) ->
  _parse_repo_url url = inr (owner, repo).
Proof.
  intros Hpath Hlead Ho Hfo Hr Hfr Htail.
  rewrite parse_repo_url_parts, Hpath.
  now destruct (parts_owner_repo _ _ _ _ Hlead Ho Hfo Hr Hfr Htail) as [rest ->].
Qed.

(** C4, as amended.  When the path has at least two non-empty segments
    and the piece right after the first one is not empty (no doubled
    slash between owner and repository), [_parse_repo_url] returns the
    first two non-empty segments of the path. *)
Theorem parse_repo_url_first_two_segments url a b rest :
  segments (path (urlparse url)) = a :: b :: rest ->
  parts (path (urlparse url)) !! 1%nat <> Some EmptyString ->
  _parse_repo_url url = inr (a, b).
Proof.
  intros Hseg Hsecond. rewrite parse_repo_url_parts.
  rewrite <- segments_strip in Hseg.
  destruct (parts (path (urlparse url))) as [|x [|y more]] eqn:E.
  - discriminate Hseg.
  - rewrite filter_cons, filter_nil in Hseg.
    destruct (decide (nonempty x = true)); discriminate Hseg.
  - assert (Hx : x <> EmptyString) by exact (parts_head _ _ _ _ E).
    assert (Hy : y <> EmptyString) by (intros ->; now apply Hsecond).
    rewrite !filter_cons in Hseg.
    destruct x as [|cx x]; [easy|]. destruct y as [|cy y]; [easy|].
    simpl in Hseg. now injection Hseg as -> -> _.
Qed.

(** C10, as amended.  Two URLs with the same path parse to the same
    outcome, whatever their scheme, host, query and fragment.  And two
    URLs whose paths both start, after any leading slashes, with the
    same non-empty [owner], one slash and the same non-empty [repo],
    parse to [(owner, repo)] whatever follows [repo] in either. *)
Theorem parse_repo_url_path_only url1 url2 :
  (path (urlparse url1) = path (urlparse url2) ->
   _parse_repo_url url1 = _parse_repo_url url2) /\
  (forall lead1 lead2 owner repo tail1 tail2,
     path (urlparse url1) = lead1 +:+ owner +:+ "/" +:+ repo +:+ tail1 ->
     path (urlparse url2) = lead2 +:+ owner +:+ "/" +:+ repo +:+ tail2 ->
     all_slashes lead1 = true -> all_slashes lead2 = true ->
     nonempty owner = true -> slash_free owner = true ->
     nonempty repo = true -> slash_free repo = true ->
     tail1 = EmptyString \/ (exists t, tail1 = String slash t) ->
     tail2 = EmptyString \/ (exists t, tail2 = String slash t) ->
     _parse_repo_url url1 = inr (owner, repo) /\
     _parse_repo_url url2 = inr (owner, repo)).
Proof.
  split.
  - intros Hpath. rewrite !parse_repo_url_parts. now rewrite Hpath.
  - intros lead1 lead2 owner repo tail1 tail2 Hp1 Hp2 Hl1 Hl2 Ho Hfo Hr Hfr
      Ht1 Ht2.
    rewrite !parse_repo_url_parts, Hp1, Hp2.
    destruct (parts_owner_repo _ _ _ _ Hl1 Ho Hfo Hr Hfr Ht1) as [rest1 ->].
    destruct (parts_owner_repo _ _ _ _ Hl2 Ho Hfo Hr Hfr Ht2) as [rest2 ->].
    split; reflexivity.
Qed.

End Parsing.

(* ===================================================================== *)
(** ** Reasoning about the exchanges of a computation *)
(* ===================================================================== *)

Section Logic.
Context `{P : Platform}.

Lemma post_mono {A} (c : M A) s (Q Q' : list Exchange -> result A -> Prop) :
  post c s Q -> (forall l r, Q l r -> Q' l r) -> post c s Q'.
Proof. intros [l [E H]] HQ. exists l. auto. Qed.

Lemma post_ret {A} (x : A) s Q : Q [] (inr x) -> post (ret x) s Q.
Proof. intros H. exists []. simpl. now rewrite app_nil_r. Qed.

Lemma post_lift {A} (r : result A) s Q : Q [] r -> post (lift r) s Q.
Proof.
  intros H. exists []. destruct r; simpl; now rewrite app_nil_r.
Qed.

Lemma post_print line s Q : Q [] (inr tt) -> post (print line) s Q.
Proof. intros H. exists []. simpl. now rewrite app_nil_r. Qed.

Lemma post_invoke m prompt s (Q : list Exchange -> result pyval -> Prop) :
  (forall answer, Q [] answer) -> post (invoke m prompt) s Q.
Proof.
  intros H. exists []. unfold invoke.
  destruct (chat_invoke m prompt (world s)) as [answer w]. simpl.
  now rewrite app_nil_r.
Qed.

Lemma post_http_get rq s (Q : list Exchange -> result Response -> Prop) :
  (forall answer, Q [(rq, answer)] answer) -> post (http_get rq) s Q.
Proof.
  intros H. exists [(rq, (http_get rq s).1)]. unfold http_get.
  destruct (requests_get rq (world s)) as [answer w]. simpl. auto.
Qed.

Lemma post_bind {A B} (c : M A) (k : A -> M B) s Q :
  post c s (fun l1 r1 =>
              match r1 with
              | inl e => Q l1 (inl e)
              | inr x => forall s1, post (k x) s1 (fun l2 r2 => Q (l1 ++ l2) r2)
              end) ->
  post (bind c k) s Q.
Proof.
  intros [l1 [E H]]. unfold post, bind.
  destruct (c s) as [[e|x] s1]; simpl in *.
  - exists l1. auto.
  - destruct (H s1) as [l2 [E2 H2]]. exists (l1 ++ l2).
    rewrite E2, E, app_assoc. auto.
Qed.

(** A loop whose body leaves the log alone leaves the log alone. *)
Lemma post_for_each_quiet {A B} (body : A -> M B) (R : A -> B -> Prop) items s :
  (forall x s1, post (body x) s1
                  (fun l r => l = [] /\ forall y, r = inr y -> R x y)) ->
  post (for_each body items) s
    (fun l r => l = [] /\ forall ys, r = inr ys -> Forall2 R items ys).
Proof.
  intros Hbody. revert s.
  induction items as [|x items IH]; intros s; simpl.
  - apply post_ret. split; [easy|]. intros ys [= <-]. constructor.
  - apply post_bind. eapply post_mono; [apply Hbody|].
    intros l [e|y] [-> Hy]; [easy|].
    intros s1. apply post_bind. eapply post_mono; [apply IH|].
    intros l2 [e|ys] [-> Hys]; [easy|].
    intros s2. apply post_ret. split; [easy|].
    intros ? [= <-]. constructor; auto.
Qed.

Lemma aborts_nil {A} (r : result A) : aborts [] r.
Proof. now intros H%Exists_nil. Qed.

Lemma aborts_app {A B} l1 (x : A) l2 (r : result B) :
  aborts l1 (inr x) -> aborts l2 r -> aborts (l1 ++ l2) r.
Proof.
  intros H1 H2 [H|H]%Exists_app.
  - destruct (H1 H) as [status [_ [=]]].
  - exact (H2 H).
Qed.

Lemma aborts_inl {A B} l e : aborts l (@inl exn A e) -> aborts l (@inl exn B e).
Proof.
  intros H Hex. destruct (H Hex) as [status [Hs [= ->]]]. eauto.
Qed.

(** A transport failure is not a failed exchange. *)
Lemma aborts_transport {A} rq e (r : result A) : aborts [(rq, inl e)] r.
Proof.
  intros [[resp [[=] _]]|H]%Exists_cons. now apply Exists_nil in H.
Qed.

Lemma aborts_healthy {A} rq resp (r : result A) :
  ~ failed resp -> aborts [(rq, inr resp)] r.
Proof.
  intros Hok [[resp' [[= <-] Hbad]]|H]%Exists_cons; [easy|].
  now apply Exists_nil in H.
Qed.

(** [raise_for_status] raises exactly on a failed answer. *)
Lemma raise_for_status_inl resp e :
  raise_for_status resp = inl e ->
  failed resp /\ e = HTTPError (status_code resp).
Proof.
  unfold raise_for_status, failed.
  destruct (400 <=? status_code resp) eqn:H1;
    destruct (status_code resp <? 600) eqn:H2; simpl; intros [= <-].
  split; [lia | reflexivity].
Qed.

Lemma raise_for_status_inr resp u :
  raise_for_status resp = inr u -> ~ failed resp.
Proof.
  unfold raise_for_status, failed.
  destruct (400 <=? status_code resp) eqn:H1;
    destruct (status_code resp <? 600) eqn:H2; simpl; intros [=]; lia.
Qed.

Lemma aborts_raised {A} rq resp e :
  raise_for_status resp = inl e -> aborts [(rq, inr resp)] (@inl exn A e).
Proof.
  intros [Hbad ->]%raise_for_status_inl _.
  exists (status_code resp). split; [exact Hbad | reflexivity].
Qed.

End Logic.

(* ===================================================================== *)
(** ** The exchanges of [get_commit_history] *)
(* ===================================================================== *)

Section History.
Context `{P : Platform}.

Lemma response_json_inr resp v :
  response_json resp = inr v -> json resp = Some v.
Proof. unfold response_json. destruct (json resp); now intros [= <-]. Qed.

Lemma format_file_post f s :
  post (format_file f) s
    (fun l r => l = [] /\ forall entry, r = inr entry -> formatted f entry).
Proof.
  unfold format_file.
  apply post_bind, post_lift.
  destruct (getitem f "filename") as [e|filename] eqn:E1; [easy|].
  intros s1. apply post_bind, post_lift.
  destruct (getitem f "changes") as [e|changes] eqn:E2; [easy|].
  intros s2. apply post_ret. split; [reflexivity|].
  intros entry [= <-]. exists filename, changes. auto.
Qed.

(** One step of symbolic execution. *)
Ltac step :=
  lazymatch goal with
  | |- post (bind _ _) _ _ => apply post_bind
  | |- post (lift _) _ _ => apply post_lift; cbv beta
  | |- post (ret _) _ _ => apply post_ret; cbv beta
  | |- post (print _) _ _ => apply post_print; cbv beta
  | |- post (http_get _) _ _ => apply post_http_get; intros ?; cbv beta
  | |- post (for_each format_file _) _ _ =>
      eapply post_mono;
      [apply (post_for_each_quiet _ formatted); intros; apply format_file_post|];
      cbv beta; intros ? ? [-> ?]
  | |- forall _ : State, _ => intros ?
  | |- match ?r with inl _ => _ | inr _ => _ end => destruct r eqn:?
  end.

(** Closes an [aborts] goal over the exchanges of one commit. *)
Ltac settle_aborts :=
  first
    [ apply aborts_nil
    | apply aborts_transport
    | apply aborts_raised; assumption
    | eapply aborts_healthy, raise_for_status_inr; eassumption
    | apply (aborts_app [_] tt [_]);
      [ eapply aborts_healthy, raise_for_status_inr; eassumption
      | settle_aborts ] ].

Lemma commit_record_post self commit s :
  post (commit_record self commit) s (commit_post self commit).
Proof.
  unfold commit_record, _get_commit_details, _get_commit_diff.
  repeat step; simpl.
  all: split; [repeat constructor; eexists; eauto|].
  all: split; [settle_aborts|].
  all: try (intros rec [=]; fail).
  intros rec [= <-]. exists r, r1. simpl.
  repeat split; eauto using raise_for_status_inr.
  exists p0, p1, l. simpl.
  repeat split; auto using response_json_inr.
Qed.

(** The loop of [get_commit_history]. *)
Lemma commit_loop_post self listed s :
  post (for_each (commit_record self) listed) s (loop_post self listed).
Proof.
  revert s. induction listed as [|commit listed IH]; intros s; simpl.
  - apply post_ret. repeat split; [constructor | apply aborts_nil |].
    now intros recs [= <-].
  - apply post_bind.
    eapply post_mono; [apply commit_record_post|]. cbv beta.
    intros l1 [e|rec] (Hcalls1 & Hab1 & Hbuilt1).
    { repeat split; [exact Hcalls1 | exact (aborts_inl _ _ Hab1) | easy]. }
    intros s1. apply post_bind.
    eapply post_mono; [apply IH|]. cbv beta.
    intros l2 [e|recs] (Hcalls2 & Hab2 & Hbuilt2).
    { repeat split; [now apply Forall_app | | easy].
      exact (aborts_app _ _ _ _ Hab1 Hab2). }
    intros s2. apply post_ret. rewrite app_nil_r.
    repeat split; [now apply Forall_app | |].
    + eapply aborts_app; [exact Hab1|].
      intros H. destruct (Hab2 H) as [status [_ [=]]].
    + intros ? [= <-]. exists l1, l2. auto.
Qed.

(** [get_commit_history] as a whole. *)
Lemma get_commit_history_post self max_commits s :
  post (get_commit_history self max_commits) s (history_post self max_commits).
Proof.
  unfold get_commit_history.
  apply post_bind, post_print. intros s1.
  apply post_bind, post_http_get. intros [e|resp].
  { exists (inl e), []. repeat split; [constructor | apply aborts_transport |].
    intros recs [=]. }
  intros s2. apply post_bind, post_lift.
  destruct (raise_for_status resp) as [e|u] eqn:Hstatus.
  { exists (inr resp), []. repeat split; [constructor | |easy].
    now apply aborts_raised. }
  apply raise_for_status_inr in Hstatus.
  assert (Hlist : forall A (r : result A),
             aborts ([] ++ [(list_request self max_commits, inr resp)]) r)
    by (intros; now apply aborts_healthy).
  intros s3. apply post_bind, post_lift.
  destruct (response_json resp) as [e|listed] eqn:Hjson.
  { exists (inr resp), []. repeat split; [constructor | apply Hlist | easy]. }
  apply response_json_inr in Hjson.
  intros s4. apply post_bind, post_lift.
  destruct (iter listed) as [e|entries] eqn:Hiter.
  { exists (inr resp), []. repeat split; [constructor | apply Hlist | easy]. }
  intros s5. apply post_bind.
  eapply post_mono; [apply commit_loop_post|]. cbv beta.
  intros l [e|recs] (Hcalls & Hab & Hbuilt).
  { exists (inr resp), l. repeat split; [exact Hcalls | | easy].
    exact (aborts_app [_] tt _ _ (Hlist _ _) Hab). }
  intros s6. apply post_bind, post_print. intros s7. apply post_ret.
  exists (inr resp), l. rewrite !app_nil_r.
  repeat split; [exact Hcalls | |].
  - apply (aborts_app [_] tt); [apply Hlist|].
    intros H. destruct (Hab H) as [status [_ [=]]].
  - intros ? [= <-]. exists resp, listed, entries. split_and!; auto.
Qed.

End History.

(* ===================================================================== *)
(** ** Properties of [get_commit_history] *)
(* ===================================================================== *)

Section HistoryProperties.
Context `{P : Platform}.

Lemma built_all_sha self listed recs l :
  built_all self listed recs l ->
  Forall2 (fun entry rec => getitem entry "sha" = inr (sha rec)) listed recs.
Proof.
  revert recs l. induction listed as [|commit listed IH];
    intros [|rec recs] l H; simpl in H; try (exfalso; exact H).
  - constructor.
  - destruct H as (l1 & l2 & -> & (r1 & r2 & _ & Hsha & _) & Hrest).
    constructor; eauto.
Qed.

Lemma built_all_calls self listed recs l :
  built_all self listed recs l ->
  map fst l = flat_map (fun rec => [details_request self (sha rec);
                                    diff_request self (sha rec)]) recs.
Proof.
  revert recs l. induction listed as [|commit listed IH];
    intros [|rec recs] l H; simpl in H; try (exfalso; exact H).
  - now subst l.
  - destruct H as (l1 & l2 & -> & (r1 & r2 & -> & _) & Hrest).
    simpl. now rewrite (IH _ _ Hrest).
Qed.

Lemma built_all_files self listed recs l :
  built_all self listed recs l ->
  Forall (fun rec => exists resp,
            (details_request self (sha rec), inr resp) ∈ l /\
            files_from resp rec) recs.
Proof.
  revert recs l. induction listed as [|commit listed IH];
    intros [|rec recs] l H; simpl in H; try (exfalso; exact H).
  - constructor.
  - destruct H as (l1 & l2 & -> & (r1 & r2 & -> & _ & _ & _ & Hfiles & _) & Hrest).
    constructor.
    + exists r1. split; [|exact Hfiles]. apply list_elem_of_here.
    + eapply Forall_impl; [exact (IH _ _ Hrest)|].
      intros rec' (resp & Hin & Hf). exists resp. split; [|exact Hf].
      simpl. now do 2 apply list_elem_of_further.
Qed.

(** A run's outcome and log, read off the post-condition. *)
Lemma get_commit_history_run self max_commits s r s' :
  get_commit_history self max_commits s = (r, s') ->
  exists l, http_log s' = http_log s ++ l /\ history_post self max_commits l r.
Proof.
  intros Hrun.
  destruct (get_commit_history_post self max_commits s) as [l H].
  rewrite Hrun in H. now exists l.
Qed.

(** C1, as amended.  A successful [get_commit_history] has asked the
    list endpoint of the repository for [max_commits] commits per page on
    the branch, and returns one record per entry of the answer, whatever
    their number, in the order of the answer, each with the [sha] of its
    entry. *)
Theorem get_commit_history_one_record_per_entry self max_commits s recs s' :
  get_commit_history self max_commits s = (inr recs, s') ->
  exists rq resp listed entries rest,
    http_log s' = http_log s ++ (rq, inr resp) :: rest /\
    req_url rq = "https://api.github.com/repos/" +:+ owner self +:+ "/"
                 +:+ repo self +:+ "/commits" /\
    req_params rq = [("per_page", PInt max_commits);
                     ("sha", PStr (branch self))] /\
    json resp = Some listed /\ iter listed = inr entries /\
    length recs = length entries /\
    Forall2 (fun entry rec => getitem entry "sha" = inr (sha rec)) entries recs.
Proof.
  intros Hrun.
  destruct (get_commit_history_run _ _ _ _ _ Hrun)
    as (l & Hlog & answer & rest & -> & _ & _ & Hok).
  destruct (Hok recs eq_refl) as (resp & listed & entries & -> & _ & Hjson & Hiter & Hbuilt).
  pose proof (built_all_sha _ _ _ _ Hbuilt) as Hsha.
  assert (Hlen : length recs = length entries)
    by (symmetry; exact (Forall2_length _ _ _ Hsha)).
  exists (list_request self max_commits), resp, listed, entries, rest.
  split_and!; auto.
Qed.

(** C2.  After a successful [get_commit_history], every record has in
    the log the answer to its details request, and its [files] field has
    one entry per file of that answer, in order, each of the form
    [<filename> (<changes> changes)]. *)
Theorem files_follow_details self max_commits s recs s' :
  get_commit_history self max_commits s = (inr recs, s') ->
  exists l,
    http_log s' = http_log s ++ l /\
    Forall (fun rec => exists resp,
              (details_request self (sha rec), inr resp) ∈ l /\
              files_from resp rec) recs.
Proof.
  intros Hrun.
  destruct (get_commit_history_run _ _ _ _ _ Hrun)
    as (l & Hlog & answer & rest & -> & _ & _ & Hok).
  destruct (Hok recs eq_refl) as (resp & listed & entries & -> & _ & _ & _ & Hbuilt).
  eexists. split; [exact Hlog|].
  eapply Forall_impl; [exact (built_all_files _ _ _ _ Hbuilt)|].
  intros rec (r & Hin & Hf). exists r. split; [|exact Hf].
  now apply list_elem_of_further.
Qed.

(** C3, as amended.  When the answer to any request of a run (the list
    call, a details call or a diff call) carries a status from 400 to
    599, the statuses on which [raise_for_status] raises,
    [get_commit_history] ends with an [HTTPError] and returns no records
    at all. *)
Theorem failed_call_aborts self max_commits s l :
  http_log (get_commit_history self max_commits s).2 = http_log s ++ l ->
  Exists failed_exchange l ->
  exists status,
    400 <= status < 600 /\
    (get_commit_history self max_commits s).1 = inl (HTTPError status).
Proof.
  intros Hlog Hbad.
  destruct (get_commit_history_post self max_commits s)
    as (l' & Hlog' & answer & rest & -> & _ & Hab & _).
  rewrite Hlog' in Hlog. apply app_inv_head in Hlog. subst l.
  exact (Hab Hbad).
Qed.

(** C5, as amended.  A successful [get_commit_history] sends the list
    request and then, for each record it returns, the details request
    followed by the diff request: 1 + 2 * (number of records) requests. *)
Theorem successful_run_calls self max_commits s recs s' :
  get_commit_history self max_commits s = (inr recs, s') ->
  exists l,
    http_log s' = http_log s ++ l /\
    map fst l = calls_for self max_commits recs /\
    length l = (1 + 2 * length recs)%nat.
Proof.
  intros Hrun.
  destruct (get_commit_history_run _ _ _ _ _ Hrun)
    as (l & Hlog & answer & rest & -> & _ & _ & Hok).
  destruct (Hok recs eq_refl) as (resp & listed & entries & -> & _ & _ & _ & Hbuilt).
  pose proof (built_all_calls _ _ _ _ Hbuilt) as Hcalls.
  eexists. split; [exact Hlog|]. split.
  - unfold calls_for. simpl. now rewrite Hcalls.
  - assert (Hlen : length rest = (2 * length recs)%nat).
    { rewrite <- (length_map fst rest), Hcalls.
      clear. induction recs as [|rec recs IH]; simpl in *; lia. }
    simpl. f_equal. transitivity (2 * length recs)%nat; [exact Hlen | lia].
Qed.

End HistoryProperties.

(* ===================================================================== *)
(** ** Properties of the constructor, the prompt and [__main__] *)
(* ===================================================================== *)

Section Startup.
Context `{P : Platform}.

Lemma quiet_ret {A} (x : A) : quiet (ret x).
Proof. intros s. now apply post_ret. Qed.

Lemma quiet_print line : quiet (print line).
Proof. intros s. now apply post_print. Qed.

Lemma quiet_invoke m prompt : quiet (invoke m prompt).
Proof. intros s. now apply post_invoke. Qed.

Lemma quiet_construct config : quiet (construct config).
Proof.
  intros s. exists []. unfold construct.
  destruct (chat_new config (world s)) as [built w]. simpl.
  now rewrite app_nil_r.
Qed.

Lemma quiet_open_w name : quiet (open_w name).
Proof.
  intros s. exists []. unfold open_w.
  destruct (fs_open name (world s)) as [opened w]. simpl.
  now rewrite app_nil_r.
Qed.

Lemma quiet_file_write name content : quiet (file_write name content).
Proof.
  intros s. exists []. unfold file_write.
  destruct content; simpl; now rewrite app_nil_r.
Qed.

Lemma quiet_bind {A B} (c : M A) (k : A -> M B) :
  quiet c -> (forall x, quiet (k x)) -> quiet (bind c k).
Proof.
  intros Hc Hk s. apply post_bind.
  eapply post_mono; [apply Hc|]. cbv beta.
  intros l [e|x] ->; [reflexivity|].
  intros s1. eapply post_mono; [apply Hk|]. now intros l2 r2 ->.
Qed.

Lemma quiet_for_each {A B} (body : A -> M B) items :
  (forall x, quiet (body x)) -> quiet (for_each body items).
Proof.
  intros Hbody. induction items as [|x items IH]; simpl.
  - apply quiet_ret.
  - apply quiet_bind; [apply Hbody|]. intros y.
    apply quiet_bind; [exact IH|]. intros ys. apply quiet_ret.
Qed.

Lemma quiet_print_commit c : quiet (print_commit c).
Proof.
  unfold print_commit.
  repeat (apply quiet_bind; [apply quiet_print|intros _]).
  apply quiet_print.
Qed.

Lemma quiet_generate_release_notes commits :
  quiet (generate_release_notes commits).
Proof.
  unfold generate_release_notes.
  apply quiet_bind; [apply quiet_construct|]. intros client.
  apply quiet_bind; [apply quiet_invoke|]. intros content. apply quiet_ret.
Qed.

(** [getenv] and a pure step that succeeds leave the state where it is. *)
Lemma post_getenv {A} name (k : option string -> M A) s Q :
  post (k (environ s !! name)) s Q -> post (bind (getenv name) k) s Q.
Proof. exact id. Qed.

Lemma post_pure {A B} (x : A) (k : A -> M B) s Q :
  post (k x) s Q -> post (bind (lift (inr x)) k) s Q.
Proof. exact id. Qed.

(** What [__init__] does: it fails exactly when the URL does not parse,
    and otherwise only prints. *)
Lemma init_run url branch_name s :
  __init__ url branch_name s =
  match _parse_repo_url url with
  | inr (o, r) =>
      (inr (mkAnalyzer url branch_name
              (default_headers (environ s !! "GITHUB_TOKEN")) o r),
       mkState (environ s) (world s) (http_log s) (chat_log s)
         (stdout s ++ ["Initialized GitHubRepoAnalyzer for repo: " +:+ url
                       +:+ " on branch: " +:+ branch_name])
         (disk s))
  | inl e => (inl e, s)
  end.
Proof.
  unfold __init__, bind, getenv, lift. simpl.
  destruct (_parse_repo_url url) as [e|[o r]]; reflexivity.
Qed.

Lemma default_headers_authorization token :
  default_headers token !! "Authorization"
  = Some ("Bearer " +:+ str_opt token).
Proof.
  unfold default_headers.
  rewrite lookup_insert_ne by discriminate. apply lookup_insert_eq.
Qed.

Lemma default_headers_accept token :
  default_headers token !! "Accept" = Some accept_json.
Proof. unfold default_headers. apply lookup_insert_eq. Qed.

(** Every request of [self] carries [self]'s [Authorization] header. *)
Lemma list_request_authorization self max_commits :
  req_headers (list_request self max_commits) !! "Authorization"
  = headers self !! "Authorization".
Proof. reflexivity. Qed.

Lemma commit_call_authorization self x :
  commit_call self x ->
  req_headers x.1 !! "Authorization" = headers self !! "Authorization".
Proof.
  intros [sha [-> | ->]]; simpl; [reflexivity|].
  now rewrite lookup_insert_ne by discriminate.
Qed.

Lemma history_authorization self max_commits l r :
  history_post self max_commits l r ->
  Forall (fun x => req_headers x.1 !! "Authorization"
                   = headers self !! "Authorization") l.
Proof.
  intros (answer & rest & -> & Hcalls & _). constructor; [reflexivity|].
  eapply Forall_impl; [exact Hcalls|]. apply commit_call_authorization.
Qed.

Lemma post_after {A B} (c : M A) (k : A -> M B) s x s1 Q :
  c s = (inr x, s1) -> http_log s1 = http_log s ->
  post (k x) s1 Q -> post (bind c k) s Q.
Proof. unfold post, bind. intros -> E. now rewrite E. Qed.

(** With its settings in place and a URL that parses, [__main__] builds
    the analyzer and sends the list request. *)
Lemma main_valid_run s u b n o r :
  environ s !! "REPO_URL" = Some u -> u <> EmptyString ->
  environ s !! "BRANCH_NAME" = Some b -> b <> EmptyString ->
  max_commits_setting (environ s !! "MAX_COMMITS") = inr n ->
  _parse_repo_url u = inr (o, r) ->
  let self := mkAnalyzer u b (default_headers (environ s !! "GITHUB_TOKEN"))
                o r in
  exists answer rest,
    http_log (main s).2 = http_log s ++ (list_request self n, answer) :: rest /\
    Forall (commit_call self) rest.
Proof.
  intros Hurl Hu Hbranch Hb Hmax Hparse self.
  cut (post main s
         (fun l _ => exists answer rest,
              l = (list_request self n, answer) :: rest /\
              Forall (commit_call self) rest)).
  { intros (l & E & answer & rest & -> & H). eauto. }
  unfold main.
  apply post_getenv. apply post_getenv. rewrite Hmax. apply post_pure.
  apply post_getenv. rewrite Hurl, Hbranch.
  destruct u as [|cu u]; [easy|]. destruct b as [|cb b]; [easy|].
  cbn [forallb truthy PyStr.nonempty negb andb str_opt].
  eapply post_after; [rewrite init_run, Hparse; reflexivity | reflexivity |].
  fold self. apply post_bind.
  eapply post_mono; [apply get_commit_history_post|]. cbv beta.
  intros l [e|commits] (answer & rest & -> & Hcalls & _); [eauto|].
  intros s2.
  eapply post_mono with (Q := fun l _ => l = []).
  2: { intros l2 r2 ->. rewrite app_nil_r. eauto. }
  revert s2.
  apply quiet_bind; [apply quiet_print|intros _].
  apply quiet_bind; [apply quiet_for_each, quiet_print_commit|intros _].
  apply quiet_bind; [apply quiet_generate_release_notes|intros notes].
  apply quiet_bind; [apply quiet_print|intros _].
  apply quiet_bind; [apply quiet_print|intros _].
  apply quiet_bind; [apply quiet_open_w|intros _].
  apply quiet_file_write.
Qed.

(** C6.  When [REPO_URL] or [BRANCH_NAME] is missing (or empty),
    [__main__] raises and leaves everything as it was: no request, no
    model call, no output; the error is the [ValueError] about the
    missing settings unless [int(MAX_COMMITS)] has raised first.  When
    both are set and [MAX_COMMITS] is not, the list request asks for 2
    commits per page. *)
Theorem main_configuration s :
  (truthy (environ s !! "REPO_URL") && truthy (environ s !! "BRANCH_NAME")
   = false ->
   (exists e, main s = (inl e, s)) /\
   forall n, max_commits_setting (environ s !! "MAX_COMMITS") = inr n ->
             main s = (inl (ValueError missing_settings), s)) /\
  (truthy (environ s !! "REPO_URL") = true ->
   truthy (environ s !! "BRANCH_NAME") = true ->
   environ s !! "MAX_COMMITS" = None ->
   forall o r,
     _parse_repo_url (str_opt (environ s !! "REPO_URL")) = inr (o, r) ->
     exists rq answer rest,
       http_log (main s).2 = http_log s ++ (rq, answer) :: rest /\
       req_params rq = [("per_page", PInt 2);
                        ("sha", PStr (str_opt (environ s !! "BRANCH_NAME")))]).
Proof.
  split.
  - intros Hmissing.
    assert (Hrun : main s =
              match max_commits_setting (environ s !! "MAX_COMMITS") with
              | inl e => (inl e, s)
              | inr _ => (inl (ValueError missing_settings), s)
              end).
    { unfold main, bind, getenv, lift, raise, ret. simpl.
      destruct (max_commits_setting (environ s !! "MAX_COMMITS")); [easy|].
      simpl. rewrite andb_true_r, Hmissing. reflexivity. }
    rewrite Hrun. split.
    + destruct (max_commits_setting _); eauto.
    + now intros n ->.
  - intros Hurl Hbranch Hmax o r Hparse.
    destruct (environ s !! "REPO_URL") as [u|] eqn:Eu; [|discriminate Hurl].
    destruct (environ s !! "BRANCH_NAME") as [b|] eqn:Eb; [|discriminate Hbranch].
    assert (Hu : u <> EmptyString) by (intros ->; discriminate Hurl).
    assert (Hb : b <> EmptyString) by (intros ->; discriminate Hbranch).
    destruct (main_valid_run s u b 2 o r Eu Hu Eb Hb) as (answer & rest & E & _).
    { now rewrite Hmax. }
    { exact Hparse. }
    eauto.
Qed.

Lemma starts_with_sound sub s :
  PyStr.starts_with sub s = true -> exists after, s = sub +:+ after.
Proof.
  revert s. induction sub as [|a sub IH]; intros s H.
  - now exists s.
  - destruct s as [|b s]; [discriminate H|]. simpl in H.
    apply andb_prop in H as [Hab H]. apply Ascii.eqb_eq in Hab as ->.
    destruct (IH _ H) as [after ->]. now exists after.
Qed.

Lemma occurs_sound sub s :
  PyStr.occurs sub s = true -> PyStr.contains s sub.
Proof.
  induction s as [|c s IH]; simpl; intros H.
  - rewrite orb_false_r in H.
    destruct (starts_with_sound _ _ H) as [after E]. now exists EmptyString, after.
  - apply orb_prop in H as [H|H].
    + destruct (starts_with_sound _ _ H) as [after E]. now exists EmptyString, after.
    + destruct (IH H) as (before & after & ->).
      now exists (String c before), after.
Qed.

Lemma append_assoc (a b c : string) : (a +:+ b) +:+ c = a +:+ (b +:+ c).
Proof.
  induction a as [|x a IH]; [reflexivity|].
  change (String x ((a +:+ b) +:+ c) = String x (a +:+ (b +:+ c))).
  now rewrite IH.
Qed.

Lemma contains_head a b sub :
  PyStr.contains a sub -> PyStr.contains (a +:+ b) sub.
Proof.
  intros (before & after & ->). exists before, (after +:+ b).
  now rewrite !append_assoc.
Qed.

(** C7, as amended.  For any list of commits, the empty one included,
    [generate_release_notes] never calls the API, and the prompt it
    builds holds the four section lines of the template.  When the
    constructor of the model client returns, the model is called exactly
    once, with that prompt; when the constructor raises, its exception
    is what [generate_release_notes] raises and the model is not called. *)
Theorem generate_release_notes_one_call commits s :
  match (chat_new (mkChatModel "gemini-1.5-flash-latest" "0.2") (world s)).1
  with
  | inr _ =>
      chat_log (generate_release_notes commits s).2
      = chat_log s ++ [(mkChatModel "gemini-1.5-flash-latest" "0.2",
                        prompt_of commits)]
  | inl e =>
      (generate_release_notes commits s).1 = inl e /\
      chat_log (generate_release_notes commits s).2 = chat_log s
  end /\
  http_log (generate_release_notes commits s).2 = http_log s /\
  PyStr.contains (prompt_of commits) "1. Overview of changes" /\
  PyStr.contains (prompt_of commits) "2. Technical breakdown by category" /\
  PyStr.contains (prompt_of commits) "3. Notable code modifications" /\
  PyStr.contains (prompt_of commits) "4. Files changed summary".
Proof.
  split_and!.
  - unfold generate_release_notes, bind, construct, invoke. fold llm.
    destruct (chat_new llm (world s)) as [[e|built] w]; simpl.
    + split; reflexivity.
    + destruct (chat_invoke llm (prompt_of commits) w) as [[e|content] w'];
        reflexivity.
  - unfold generate_release_notes, bind, construct, invoke.
    destruct (chat_new llm (world s)) as [[e|built] w]; simpl;
      [reflexivity|].
    destruct (chat_invoke llm (prompt_of commits) w) as [[e|content] w'];
      reflexivity.
  - apply contains_head, occurs_sound. vm_compute. reflexivity.
  - apply contains_head, occurs_sound. vm_compute. reflexivity.
  - apply contains_head, occurs_sound. vm_compute. reflexivity.
  - apply contains_head, occurs_sound. vm_compute. reflexivity.
Qed.

Lemma details_log self sha s :
  exists answer,
    http_log (_get_commit_details self sha s).2
    = http_log s ++ [(details_request self sha, answer)].
Proof.
  unfold _get_commit_details, bind, http_get, lift.
  destruct (requests_get (details_request self sha) (world s)) as [[e|resp] w];
    simpl; [eauto|].
  destruct (raise_for_status resp); simpl; [eauto|].
  destruct (response_json resp); simpl; eauto.
Qed.

Lemma diff_log self sha s :
  exists answer,
    http_log (_get_commit_diff self sha s).2
    = http_log s ++ [(diff_request self sha, answer)].
Proof.
  unfold _get_commit_diff, bind, http_get, lift.
  destruct (requests_get (diff_request self sha) (world s)) as [[e|resp] w];
    simpl; [eauto|].
  destruct (raise_for_status resp); simpl; eauto.
Qed.

(** C8.  For an analyzer built by [__init__], every request of
    [get_commit_history] carries the header [Authorization] with the
    value [Bearer ] followed by the configured token, and the request of
    [_get_commit_diff] is the request of [_get_commit_details] for the
    same commit with the [Accept] header changed from
    [application/vnd.github+json] to [application/vnd.github.v3.diff]:
    same URL, same parameters, same other headers. *)
Theorem requests_carry_token
  url branch_name s0 self s1 max_commits s l sha sa rd ad sb rf af :
  __init__ url branch_name s0 = (inr self, s1) ->
  http_log (get_commit_history self max_commits s).2 = http_log s ++ l ->
  http_log (_get_commit_details self sha sa).2 = http_log sa ++ [(rd, ad)] ->
  http_log (_get_commit_diff self sha sb).2 = http_log sb ++ [(rf, af)] ->
  Forall (fun x => req_headers x.1 !! "Authorization"
                   = Some ("Bearer " +:+
                           match environ s0 !! "GITHUB_TOKEN" with
                           | Some token => token
                           | None => "None"
                           end))
         l /\
  req_url rf = req_url rd /\
  req_params rf = req_params rd /\
  req_headers rd !! "Accept" = Some "application/vnd.github+json" /\
  req_headers rf !! "Accept" = Some "application/vnd.github.v3.diff" /\
  forall name, name <> "Accept" ->
               req_headers rf !! name = req_headers rd !! name.
Proof.
  intros Hinit Hlog Hdetails Hdiff.
  assert (Hheaders : headers self
                     = default_headers (environ s0 !! "GITHUB_TOKEN")).
  { rewrite init_run in Hinit.
    destruct (_parse_repo_url url) as [e|[o r]]; [discriminate Hinit|].
    now injection Hinit as <- _. }
  destruct (details_log self sha sa) as [a1 E1]. rewrite E1 in Hdetails.
  apply app_inv_head in Hdetails. injection Hdetails as <- _.
  destruct (diff_log self sha sb) as [a2 E2]. rewrite E2 in Hdiff.
  apply app_inv_head in Hdiff. injection Hdiff as <- _.
  split_and!; try reflexivity.
  - destruct (get_commit_history_post self max_commits s)
      as (l' & Hlog' & Hpost).
    rewrite Hlog' in Hlog. apply app_inv_head in Hlog. subst l'.
    eapply Forall_impl; [exact (history_authorization _ _ _ _ Hpost)|].
    intros x ->. rewrite Hheaders. apply default_headers_authorization.
  - simpl. rewrite Hheaders. apply default_headers_accept.
  - apply lookup_insert_eq.
  - intros name Hname. simpl. now rewrite lookup_insert_ne.
Qed.

(** C9.  With [REPO_URL] and [BRANCH_NAME] set, a parsable URL and no
    [GITHUB_TOKEN], nothing is raised for the missing token: [__init__]
    succeeds with the header [Authorization: Bearer None], and
    [__main__] goes on to send requests that all carry it. *)
Theorem missing_token_is_not_checked s u b n o r :
  environ s !! "GITHUB_TOKEN" = None ->
  environ s !! "REPO_URL" = Some u -> u <> EmptyString ->
  environ s !! "BRANCH_NAME" = Some b -> b <> EmptyString ->
  max_commits_setting (environ s !! "MAX_COMMITS") = inr n ->
  _parse_repo_url u = inr (o, r) ->
  (exists self s1,
      __init__ u b s = (inr self, s1) /\
      headers self !! "Authorization" = Some "Bearer None") /\
  exists first others,
    http_log (main s).2 = http_log s ++ first :: others /\
    Forall (fun x => req_headers x.1 !! "Authorization" = Some "Bearer None")
           (first :: others).
Proof.
  intros Htoken Hurl Hu Hbranch Hb Hmax Hparse. split.
  - rewrite init_run, Hparse, Htoken. eexists _, _. split; [reflexivity|].
    apply default_headers_authorization.
  - destruct (main_valid_run s u b n o r Hurl Hu Hbranch Hb Hmax Hparse)
      as (answer & rest & E & Hcalls).
    rewrite Htoken in E, Hcalls.
    eexists _, _. split; [exact E|].
    constructor; [apply default_headers_authorization|].
    eapply Forall_impl; [exact Hcalls|].
    intros x Hx. rewrite (commit_call_authorization _ _ Hx).
    apply default_headers_authorization.
Qed.

End Startup.

(* ===================================================================== *)
(** ** Runs on the canned repository *)
(* ===================================================================== *)

Module Runs.
Import Fixture.
#[local] Existing Instance platform.

(** C4, as first stated, fails on a doubled slash: the non-empty segments
    of [/octo//demo] are [octo] and [demo], yet the repository name comes
    out empty. *)
Lemma parse_repo_url_doubled_slash :
  PyStr.segments (path (urlparse "https://github.com/octo//demo?tab=readme"))
  = ["octo"; "demo"] /\
  _parse_repo_url "https://github.com/octo//demo?tab=readme"
  = inr ("octo", EmptyString) /\
  _parse_repo_url "https://github.com/octo//demo?tab=readme"
  <> inr ("octo", "demo").
Proof. repeat split. discriminate. Qed.

Lemma parse_repo_url_first_two_segments_witness :
  _parse_repo_url "https://github.com/octo/demo"
  = inr ("octo", "demo").
Proof.
  apply (parse_repo_url_first_two_segments
           "https://github.com/octo/demo" "octo" "demo" []).
  - reflexivity.
  - discriminate.
Defined.

Lemma parse_repo_url_path_only_witness :
  _parse_repo_url "https://github.com/octo/demo" = _parse_repo_url "/octo/demo"
  /\
  (_parse_repo_url "https://github.com/octo/demo" = inr ("octo", "demo") /\
   _parse_repo_url "http://example.org/octo/demo/tree/main?x=1#top"
   = inr ("octo", "demo")).
Proof.
  split.
  - apply (proj1 (parse_repo_url_path_only "https://github.com/octo/demo"
                    "/octo/demo")).
    reflexivity.
  - apply (proj2 (parse_repo_url_path_only "https://github.com/octo/demo"
                    "http://example.org/octo/demo/tree/main?x=1#top")
             "/" "/" "octo" "demo" EmptyString "/tree/main");
      try reflexivity.
    + left. reflexivity.
    + right. exists "tree/main". reflexivity.
Defined.

(** C10, as first stated, fails when the second piece of the path is
    empty: [/a//c] and [/a//] have the same pieces up to the second
    slash-separated segment, yet the first parses and the second raises,
    because the trailing slashes are stripped before the split. *)
Lemma later_segment_changes_outcome :
  take 3 (PyStr.split PyStr.slash (path (urlparse "/a//c")))
  = take 3 (PyStr.split PyStr.slash (path (urlparse "/a//"))) /\
  _parse_repo_url "/a//c" = inr ("a", EmptyString) /\
  _parse_repo_url "/a//" = inl IndexError.
Proof. repeat split. Qed.

Lemma get_commit_history_one_record_per_entry_witness :
  exists rq resp listed entries rest,
    http_log (history healthy).2
    = http_log (boot with_token healthy) ++ (rq, inr resp) :: rest /\
    req_url rq = "https://api.github.com/repos/" +:+ owner octo +:+ "/"
                 +:+ repo octo +:+ "/commits" /\
    req_params rq = [("per_page", PInt 2); ("sha", PStr (branch octo))] /\
    json resp = Some listed /\ iter listed = inr entries /\
    length [r1; r2] = length entries /\
    Forall2 (fun entry rec => getitem entry "sha" = inr (sha rec))
            entries [r1; r2].
Proof.
  apply (get_commit_history_one_record_per_entry octo 2
           (boot with_token healthy) [r1; r2] (history healthy).2).
  vm_compute. reflexivity.
Defined.

Lemma files_follow_details_witness :
  exists l,
    http_log (history healthy).2 = http_log (boot with_token healthy) ++ l /\
    Forall (fun rec => exists resp,
              (details_request octo (sha rec), inr resp) ∈ l /\
              files_from resp rec) [r1; r2].
Proof.
  apply (files_follow_details octo 2 (boot with_token healthy) [r1; r2]
           (history healthy).2).
  vm_compute. reflexivity.
Defined.

Lemma failed_call_aborts_witness :
  exists status,
    400 <= status < 600 /\ (history failing).1 = inl (HTTPError status).
Proof.
  apply (failed_call_aborts octo 2 (boot with_token failing)
           (http_log (history failing).2)).
  - reflexivity.
  - do 3 apply Exists_cons_tl. apply Exists_cons_hd.
    eexists. split; [vm_compute; reflexivity|].
    unfold failed. simpl. lia.
Defined.

Lemma successful_run_calls_witness :
  exists l,
    http_log (history healthy).2 = http_log (boot with_token healthy) ++ l /\
    map fst l = calls_for octo 2 [r1; r2] /\
    length l = (1 + 2 * length [r1; r2])%nat.
Proof.
  apply (successful_run_calls octo 2 (boot with_token healthy) [r1; r2]
           (history healthy).2).
  vm_compute. reflexivity.
Defined.

(** C5, as first stated, fails when the branch holds fewer commits than
    asked for: with one commit and [max_commits = 2] the run succeeds
    after 3 requests, not 1 + 2 * 2. *)
Lemma one_commit_three_requests :
  (history single).1 = inr [r1] /\
  length (http_log (history single).2) = 3%nat /\
  length (http_log (history single).2) <> (1 + 2 * Z.to_nat 2)%nat.
Proof. vm_compute. repeat split. discriminate. Qed.

Lemma main_configuration_witness :
  ((exists e, main (boot ∅ healthy) = (inl e, boot ∅ healthy)) /\
   forall n, max_commits_setting (environ (boot ∅ healthy) !! "MAX_COMMITS")
             = inr n ->
             main (boot ∅ healthy)
             = (inl (ValueError missing_settings), boot ∅ healthy)) /\
  exists rq answer rest,
    http_log (main (boot settings healthy)).2
    = http_log (boot settings healthy) ++ (rq, answer) :: rest /\
    req_params rq
    = [("per_page", PInt 2);
       ("sha", PStr (str_opt (environ (boot settings healthy)
                              !! "BRANCH_NAME")))].
Proof.
  split.
  - apply (proj1 (main_configuration (boot ∅ healthy))). reflexivity.
  - apply (proj2 (main_configuration (boot settings healthy))
             eq_refl eq_refl eq_refl "octo" "demo").
    reflexivity.
Defined.

Lemma requests_carry_token_witness :
  Forall (fun x => req_headers x.1 !! "Authorization" = Some "Bearer t0k")
         (http_log (history healthy).2) /\
  req_url (diff_request octo (PStr "a1b2"))
  = req_url (details_request octo (PStr "a1b2")) /\
  req_params (diff_request octo (PStr "a1b2"))
  = req_params (details_request octo (PStr "a1b2")) /\
  req_headers (details_request octo (PStr "a1b2")) !! "Accept"
  = Some "application/vnd.github+json" /\
  req_headers (diff_request octo (PStr "a1b2")) !! "Accept"
  = Some "application/vnd.github.v3.diff" /\
  forall name, name <> "Accept" ->
               req_headers (diff_request octo (PStr "a1b2")) !! name
               = req_headers (details_request octo (PStr "a1b2")) !! name.
Proof.
  apply (requests_carry_token "https://github.com/octo/demo" "main"
           (boot with_token healthy) octo
           (__init__ "https://github.com/octo/demo" "main"
              (boot with_token healthy)).2
           2 (boot with_token healthy) (http_log (history healthy).2)
           (PStr "a1b2")
           (boot with_token healthy)
           (details_request octo (PStr "a1b2"))
           (serve (details_request octo (PStr "a1b2")) healthy).1
           (boot with_token healthy)
           (diff_request octo (PStr "a1b2"))
           (serve (diff_request octo (PStr "a1b2")) healthy).1).
  - vm_compute. reflexivity.
  - reflexivity.
  - vm_compute. reflexivity.
  - vm_compute. reflexivity.
Defined.

Lemma missing_token_is_not_checked_witness :
  (exists self s1,
      __init__ "https://github.com/octo/demo" "main" (boot settings healthy)
      = (inr self, s1) /\
      headers self !! "Authorization" = Some "Bearer None") /\
  exists first others,
    http_log (main (boot settings healthy)).2
    = http_log (boot settings healthy) ++ first :: others /\
    Forall (fun x => req_headers x.1 !! "Authorization" = Some "Bearer None")
           (first :: others).
Proof.
  apply (missing_token_is_not_checked (boot settings healthy)
           "https://github.com/octo/demo" "main" 2 "octo" "demo").
  - reflexivity.
  - reflexivity.
  - discriminate.
  - reflexivity.
  - discriminate.
  - reflexivity.
  - reflexivity.
Defined.

End Runs.

(* ===================================================================== *)
(** ** More about [strip], [split] and the parsed URL *)
(* ===================================================================== *)

Module PyStrMore.
Import PyStr PyStrFacts.

#[local] Arguments mem : simpl never.

Lemma append_empty s : s +:+ EmptyString = s.
Proof.
  induction s as [|c s IH]; [reflexivity|]. rewrite append_cons. now f_equal.
Qed.

(** No piece of a split holds the separator. *)
Lemma split_pieces_slash_free s :
  Forall (fun piece => slash_free piece = true) (split slash s).
Proof.
  induction s as [|c s IH]; simpl.
  - now repeat constructor.
  - destruct (Ascii.eqb c slash) eqn:Hc.
    + now constructor.
    + destruct (split slash s) as [|piece pieces].
      * constructor; [|constructor]. simpl. now rewrite Hc.
      * apply Forall_cons in IH as [Hpiece Hpieces].
        constructor; [|exact Hpieces]. simpl. now rewrite Hc.
Qed.

(** Joining the pieces of a split with the separator gives the string
    back. *)
Lemma join_split s : join "/" (split slash s) = s.
Proof.
  induction s as [|c s IH]; [reflexivity|]. simpl split.
  pose proof (split_not_nil slash s) as Hne.
  destruct (Ascii.eqb c slash) eqn:Hc.
  - apply Ascii.eqb_eq in Hc as ->.
    destruct (split slash s) as [|piece pieces]; [easy|].
    change (join "/" (EmptyString :: piece :: pieces))
      with (String slash (join "/" (piece :: pieces))).
    now rewrite IH.
  - destruct (split slash s) as [|piece [|next pieces]]; [easy| |].
    + simpl in *. now rewrite IH.
    + change (join "/" (String c piece :: next :: pieces))
        with (String c (join "/" (piece :: next :: pieces))).
      now rewrite IH.
Qed.

Lemma rstrip_slashes trail :
  all_slashes trail = true -> rstrip "/" trail = EmptyString.
Proof.
  induction trail as [|c trail IH]; simpl; intros H; [reflexivity|].
  apply andb_prop in H as [Hc H]. now rewrite (IH H), mem_slash, Hc.
Qed.

Lemma rstrip_trailing s trail :
  all_slashes trail = true -> rstrip "/" (s +:+ trail) = rstrip "/" s.
Proof.
  intros H. induction s as [|c s IH].
  - now apply rstrip_slashes.
  - rewrite append_cons. simpl. now rewrite IH.
Qed.

Lemma rstrip_slash_free s : slash_free s = true -> rstrip "/" s = s.
Proof.
  induction s as [|c s IH]; simpl; intros H; [reflexivity|].
  apply andb_prop in H as [Hc H]. apply negb_true_iff in Hc.
  rewrite (IH H), mem_slash, Hc. now destruct s.
Qed.

Lemma lstrip_slash_free s : slash_free s = true -> lstrip "/" s = s.
Proof.
  destruct s as [|c s]; simpl; intros H; [reflexivity|].
  apply andb_prop in H as [Hc _]. apply negb_true_iff in Hc.
  now rewrite mem_slash, Hc.
Qed.

(** A path with a single piece between its slashes, or none at all,
    strips to that piece. *)
Lemma parts_single lead owner trail :
  all_slashes lead = true -> slash_free owner = true ->
  all_slashes trail = true ->
  parts (lead +:+ owner +:+ trail) = [owner].
Proof.
  intros Hlead Howner Htrail. unfold parts, strip.
  rewrite (lstrip_leading _ _ Hlead).
  destruct owner as [|c owner].
  - change (EmptyString +:+ trail) with trail.
    destruct (lstrip_cut trail) as [cut [E _]].
    assert (Hrest : all_slashes (lstrip "/" trail) = true).
    { clear E. induction trail as [|x trail IH]; simpl in *; [reflexivity|].
      apply andb_prop in Htrail as [Hx Htrail].
      rewrite mem_slash, Hx. exact (IH Htrail). }
    now rewrite (rstrip_slashes _ Hrest).
  - rewrite append_cons.
    assert (Hc : Ascii.eqb c slash = false).
    { simpl in Howner. apply andb_prop in Howner as [Hc _].
      now apply negb_true_iff in Hc. }
    simpl lstrip. rewrite mem_slash, Hc, <- append_cons.
    rewrite (rstrip_trailing _ _ Htrail), (rstrip_slash_free _ Howner).
    now apply split_slash_free.
Qed.

End PyStrMore.

Section ParsingMore.
Context `{P : Platform}.
Import PyStr PyStrFacts PyStrMore.

(** X1.  A URL whose path holds one piece between its slashes, or only
    slashes, or nothing, makes [_parse_repo_url] raise [IndexError]. *)
Theorem parse_repo_url_single_segment url lead owner trail :
  path (urlparse url) = lead +:+ owner +:+ trail ->
  all_slashes lead = true -> slash_free owner = true ->
  all_slashes trail = true ->
  _parse_repo_url url = inl IndexError.
Proof.
  intros Hpath Hlead Howner Htrail.
  rewrite parse_repo_url_parts, Hpath.
  now rewrite (parts_single _ _ _ Hlead Howner Htrail).
Qed.

(** X2.  Whatever [_parse_repo_url] returns, the owner is not empty and
    neither component holds a slash. *)
Theorem parse_repo_url_components url a b :
  _parse_repo_url url = inr (a, b) ->
  a <> EmptyString /\ slash_free a = true /\ slash_free b = true.
Proof.
  rewrite parse_repo_url_parts.
  destruct (parts (path (urlparse url))) as [|x [|y rest]] eqn:E;
    try discriminate.
  intros [= <- <-].
  pose proof (split_pieces_slash_free (strip "/" (path (urlparse url)))) as H.
  fold (parts (path (urlparse url))) in H. rewrite E in H.
  apply Forall_cons in H as [Hx H]. apply Forall_cons in H as [Hy _].
  split; [exact (parts_head _ _ _ _ E) | now split].
Qed.

(** X4.  The pieces that [_parse_repo_url] indexes, joined again, are the
    path without its leading and trailing slashes: the split loses
    nothing. *)
Theorem parts_join_back p : join "/" (parts p) = strip "/" p.
Proof. unfold parts. apply join_split. Qed.

(** X5.  A URL that does not parse stops [__main__] at the constructor, with
    nothing printed, sent, asked of the model or written. *)
Theorem main_stops_on_short_url s u b n e :
  environ s !! "REPO_URL" = Some u -> u <> EmptyString ->
  environ s !! "BRANCH_NAME" = Some b -> b <> EmptyString ->
  max_commits_setting (environ s !! "MAX_COMMITS") = inr n ->
  _parse_repo_url u = inl e ->
  main s = (inl e, s).
Proof.
  intros Hurl Hu Hbranch Hb Hmax Hparse.
  unfold main, bind, getenv. simpl. rewrite Hmax. simpl.
  rewrite Hurl, Hbranch. simpl.
  destruct u as [|cu u]; [easy|]. destruct b as [|cb b]; [easy|]. simpl.
  pose proof (init_run (String cu u) (String cb b) s) as Hinit.
  rewrite Hparse in Hinit. unfold bind, getenv in Hinit.
  simpl. now rewrite Hinit.
Qed.

(** X6.  A value of [MAX_COMMITS] on which [int()] raises stops [__main__]
    with that exception before the required settings are even looked
    at, and before anything is printed or sent. *)
Theorem main_stops_on_bad_max_commits s v e :
  environ s !! "MAX_COMMITS" = Some v -> int_of_str v = inl e ->
  main s = (inl e, s).
Proof.
  intros Hv He. unfold main, bind, getenv. simpl. rewrite Hv. simpl.
  now rewrite He.
Qed.

End ParsingMore.

(* ===================================================================== *)
(** ** More about the exchanges of [get_commit_history] *)
(* ===================================================================== *)

Section HistoryMore.
Context `{P : Platform}.

Lemma relays_nil {A} (r : result A) : relays [] r.
Proof. intros rq e H. now apply elem_of_nil in H. Qed.

Lemma relays_app {A B} l1 (x : A) l2 (r : result B) :
  relays l1 (inr x) -> relays l2 r -> relays (l1 ++ l2) r.
Proof.
  intros H1 H2 rq e [H|H]%elem_of_app.
  - discriminate (H1 _ _ H).
  - exact (H2 _ _ H).
Qed.

Lemma relays_inl {A B} l e : relays l (@inl exn A e) -> relays l (@inl exn B e).
Proof. intros H rq e' Hin. now injection (H _ _ Hin) as ->. Qed.

Lemma merged_weaken self l1 l2 l3 rec :
  merged self l2 rec -> merged self (l1 ++ l2 ++ l3) rec.
Proof.
  intros (resp1 & resp2 & H1 & H2 & Hf). exists resp1, resp2.
  rewrite !elem_of_app. auto.
Qed.

(** One step of symbolic execution, as in the previous section. *)
Ltac exec :=
  lazymatch goal with
  | |- post (bind _ _) _ _ => apply post_bind
  | |- post (lift _) _ _ => apply post_lift; cbv beta
  | |- post (ret _) _ _ => apply post_ret; cbv beta
  | |- post (print _) _ _ => apply post_print; cbv beta
  | |- post (http_get _) _ _ => apply post_http_get; intros ?; cbv beta
  | |- post (for_each format_file _) _ _ =>
      eapply post_mono;
      [apply (post_for_each_quiet _ formatted); intros; apply format_file_post|];
      cbv beta; intros ? ? [-> ?]
  | |- forall _ : State, _ => intros ?
  | |- match ?r with inl _ => _ | inr _ => _ end => destruct r eqn:?
  end.

(** Closes a [relays] goal over the exchanges of one commit. *)
Ltac settle_relays :=
  let H := fresh in
  intros ? ? H;
  repeat (apply elem_of_cons in H as [H|H]; [try discriminate H|]);
  [.. | now apply elem_of_nil in H];
  now injection H as _ ->.

Lemma commit_record_bounds self commit s :
  post (commit_record self commit) s (commit_bounds self).
Proof.
  unfold commit_record, _get_commit_details, _get_commit_diff.
  repeat exec; unfold commit_bounds; simpl.
  all: split; [lia|].
  all: split; [try apply relays_nil; try settle_relays|].
  all: try (intros rec [=]; fail).
  intros rec [= <-]. simplify_eq.
  eexists _, _. split_and!.
  - apply list_elem_of_here.
  - apply list_elem_of_further, list_elem_of_here.
  - eexists _, _, _. simpl. split_and!; eauto using response_json_inr.
Qed.

Lemma commit_loop_bounds self listed s :
  post (for_each (commit_record self) listed) s (loop_bounds self listed).
Proof.
  revert s. induction listed as [|commit listed IH]; intros s; simpl.
  - apply post_ret. split_and!; [simpl; lia | apply relays_nil |].
    intros recs [= <-]. constructor.
  - apply post_bind.
    eapply post_mono; [apply commit_record_bounds|]. cbv beta.
    intros l1 [e|rec] (Hlen1 & Hrel1 & Hmerged1).
    { split_and!; [simpl; lia | exact (relays_inl _ _ Hrel1) | easy]. }
    intros s1. apply post_bind.
    eapply post_mono; [apply IH|]. cbv beta.
    intros l2 [e|recs] (Hlen2 & Hrel2 & Hmerged2).
    { split_and!; [rewrite length_app; simpl; lia | | easy].
      exact (relays_app _ _ _ _ Hrel1 Hrel2). }
    intros s2. apply post_ret. rewrite app_nil_r.
    split_and!; [rewrite length_app; simpl; lia | |].
    + eapply relays_app; [exact Hrel1|].
      intros rq e H. discriminate (Hrel2 _ _ H).
    + intros ? [= <-]. constructor.
      * apply (merged_weaken self [] l1 l2). now apply Hmerged1.
      * eapply Forall_impl; [exact (Hmerged2 _ eq_refl)|].
        intros rec' H. apply (merged_weaken self l1 l2 []) in H.
        now rewrite app_nil_r in H.
Qed.

Lemma get_commit_history_bounds self max_commits s :
  post (get_commit_history self max_commits) s
       (history_bounds self max_commits).
Proof.
  unfold get_commit_history.
  apply post_bind, post_print. intros s1.
  apply post_bind, post_http_get. intros [e|resp].
  { exists (inl e), []. split_and!; [reflexivity | | easy | now left].
    intros rq e' [H|H]%elem_of_cons; [now injection H as _ -> |].
    now apply elem_of_nil in H. }
  assert (Hlist : forall A (x : A),
             relays ([] ++ [(list_request self max_commits, inr resp)])
                    (inr x)).
  { intros A x rq e' [H|H]%elem_of_cons; [discriminate H|].
    now apply elem_of_nil in H. }
  assert (Hstop : forall e : exn,
             history_bounds self max_commits
               ([] ++ [(list_request self max_commits, inr resp)])
               (inl e)).
  { intros e. exists (inr resp), [].
    split_and!; [reflexivity | | easy | now left].
    intros rq e' [H|H]%elem_of_cons; [discriminate H|].
    now apply elem_of_nil in H. }
  intros s2. apply post_bind, post_lift.
  destruct (raise_for_status resp) as [e|u] eqn:Hstatus; [apply Hstop|].
  intros s3. apply post_bind, post_lift.
  destruct (response_json resp) as [e|listed] eqn:Hjson; [apply Hstop|].
  apply response_json_inr in Hjson.
  intros s4. apply post_bind, post_lift.
  destruct (iter listed) as [e|entries] eqn:Hiter; [apply Hstop|].
  intros s5. apply post_bind.
  eapply post_mono; [apply commit_loop_bounds|]. cbv beta.
  intros l [e|recs] (Hlen & Hrel & Hmerged).
  { exists (inr resp), l. split_and!; [reflexivity | | easy |].
    - exact (relays_app [_] tt _ _ (Hlist _ tt) Hrel).
    - right. exists resp, listed, entries. auto. }
  intros s6. apply post_bind, post_print. intros s7. apply post_ret.
  exists (inr resp), l. rewrite !app_nil_r. split_and!.
  - reflexivity.
  - apply (relays_app [_] tt); [apply (Hlist _ tt)|].
    intros rq e H. discriminate (Hrel _ _ H).
  - intros ? [= <-]. now apply Hmerged.
  - right. exists resp, listed, entries. auto.
Qed.

End HistoryMore.

Section HistoryExtras.
Context `{P : Platform}.

(** X7.  When [requests.get] itself raises, on the list call or on any later
    call, [get_commit_history] ends with that very exception: nothing is
    caught and nothing is retried. *)
Theorem transport_error_propagates self max_commits s l rq e :
  http_log (get_commit_history self max_commits s).2 = http_log s ++ l ->
  (rq, inl e) ∈ l ->
  (get_commit_history self max_commits s).1 = inl e.
Proof.
  intros Hlog Hin.
  destruct (get_commit_history_bounds self max_commits s)
    as (l' & Hlog' & answer & rest & -> & Hrel & _).
  rewrite Hlog' in Hlog. apply app_inv_head in Hlog. subst l.
  exact (Hrel _ _ Hin).
Qed.

(** X8.  Every run, failed or not, sends the list request first, and after
    it at most two requests per entry of the list answer; when the list
    answer cannot be read, nothing more is sent. *)
Theorem request_budget self max_commits s :
  exists answer rest,
    http_log (get_commit_history self max_commits s).2
    = http_log s ++ (list_request self max_commits, answer) :: rest /\
    (rest = [] \/
     exists resp listed entries,
       answer = inr resp /\ json resp = Some listed /\
       iter listed = inr entries /\
       (length rest <= 2 * length entries)%nat).
Proof.
  destruct (get_commit_history_bounds self max_commits s)
    as (l & Hlog & answer & rest & -> & _ & _ & Hrest).
  now exists answer, rest.
Qed.

(** X9.  Each record of a successful run merges two answers of that run: its
    message, author name and author date are [commit.message],
    [commit.author.name] and [commit.author.date] of the answer to its
    details request, and its diff is the body of the answer to its diff
    request. *)
Theorem records_merge_answers self max_commits s recs s' :
  get_commit_history self max_commits s = (inr recs, s') ->
  exists l, http_log s' = http_log s ++ l /\ Forall (merged self l) recs.
Proof.
  intros Hrun.
  destruct (get_commit_history_bounds self max_commits s)
    as (l & Hlog & answer & rest & -> & _ & Hmerged & _).
  rewrite Hrun in Hlog, Hmerged. simpl in *.
  eexists. split; [exact Hlog|].
  eapply Forall_impl; [exact (Hmerged _ eq_refl)|].
  intros rec H.
  apply (merged_weaken self [(list_request self max_commits, answer)] rest [])
    in H.
  now rewrite app_nil_r in H.
Qed.

Lemma raise_for_status_ok resp :
  ~ failed resp -> raise_for_status resp = inr tt.
Proof.
  unfold raise_for_status, failed. intros H.
  destruct (400 <=? status_code resp) eqn:H1;
    destruct (status_code resp <? 600) eqn:H2; simpl; try reflexivity.
  exfalso. apply H. lia.
Qed.

(** X10.  An empty list answer is not an error: the run succeeds with no
    records after the list request alone. *)
Theorem empty_listing self max_commits s resp w listed :
  requests_get (list_request self max_commits) (world s) = (inr resp, w) ->
  ~ failed resp ->
  json resp = Some listed -> iter listed = inr [] ->
  (get_commit_history self max_commits s).1 = inr [] /\
  http_log (get_commit_history self max_commits s).2
  = http_log s ++ [(list_request self max_commits, inr resp)].
Proof.
  intros Hget Hok Hjson Hiter.
  unfold get_commit_history, bind, print, http_get, lift. simpl.
  rewrite Hget. simpl. rewrite (raise_for_status_ok _ Hok). simpl.
  unfold response_json. rewrite Hjson. simpl. rewrite Hiter. simpl.
  split; reflexivity.
Qed.

(** X13.  Every request of every run goes to the commits of the parsed owner
    and repository on [https://api.github.com]: the host of the
    repository URL plays no part. *)
Theorem requests_stay_on_api self max_commits s l :
  http_log (get_commit_history self max_commits s).2 = http_log s ++ l ->
  Forall (fun x => exists suffix,
            req_url x.1 = commits_url self +:+ suffix) l.
Proof.
  intros Hlog.
  destruct (get_commit_history_post self max_commits s)
    as (l' & Hlog' & answer & rest & -> & Hcalls & _).
  rewrite Hlog' in Hlog. apply app_inv_head in Hlog. subst l.
  assert (Hcommit : forall sha,
             commit_url self sha
             = commits_url self +:+ "/" +:+ PyVal.str repr_str sha).
  { intros sha. unfold commit_url, commits_url.
    now rewrite !append_assoc. }
  constructor.
  - exists EmptyString. simpl. fold (commits_url self).
    clear. induction (commits_url self) as [|c u IH]; [reflexivity|].
    change (String c u = String c (u +:+ EmptyString)). now f_equal.
  - eapply Forall_impl; [exact Hcalls|].
    intros x [sha [-> | ->]]; eexists; apply Hcommit.
Qed.

(** X14.  For an analyzer built by [__init__], every request of every run
    carries exactly two headers, [Accept] and [Authorization]. *)
Theorem requests_carry_two_headers url branch_name s0 self s1 max_commits s l :
  __init__ url branch_name s0 = (inr self, s1) ->
  http_log (get_commit_history self max_commits s).2 = http_log s ++ l ->
  Forall (fun x => dom (req_headers x.1)
                   = ({["Accept"; "Authorization"]} : gset string)) l.
Proof.
  intros Hinit Hlog.
  assert (Hdom : dom (headers self)
                 = ({["Accept"; "Authorization"]} : gset string)).
  { rewrite init_run in Hinit.
    destruct (_parse_repo_url url) as [e|[o r]]; [discriminate Hinit|].
    injection Hinit as <- _. simpl. unfold default_headers.
    rewrite !dom_insert_L, dom_empty_L. set_solver. }
  destruct (get_commit_history_post self max_commits s)
    as (l' & Hlog' & answer & rest & -> & Hcalls & _).
  rewrite Hlog' in Hlog. apply app_inv_head in Hlog. subst l.
  constructor; [exact Hdom|].
  eapply Forall_impl; [exact Hcalls|].
  intros x [sha [-> | ->]]; simpl; [exact Hdom|].
  rewrite dom_insert_L, Hdom. set_solver.
Qed.

End HistoryExtras.

(* ===================================================================== *)
(** ** What a run leaves outside the network *)
(* ===================================================================== *)

Section Frames.
Context `{P : Platform}.

Lemma offline_refl s : offline s s.
Proof. now repeat split. Qed.

Lemma offline_trans s1 s2 s3 : offline s1 s2 -> offline s2 s3 -> offline s1 s3.
Proof.
  intros (E1 & C1 & D1) (E2 & C2 & D2).
  repeat split; etransitivity; eassumption.
Qed.

Lemma untouched_ret {A} (x : A) : untouched (ret x).
Proof. intros s. apply offline_refl. Qed.

Lemma untouched_lift {A} (r : result A) : untouched (lift r).
Proof. intros s. destruct r; apply offline_refl. Qed.

Lemma untouched_print line : untouched (print line).
Proof. intros s. now repeat split. Qed.

Lemma untouched_http_get rq : untouched (http_get rq).
Proof.
  intros s. unfold http_get.
  destruct (requests_get rq (world s)) as [answer w]. now repeat split.
Qed.

Lemma untouched_bind {A B} (c : M A) (k : A -> M B) :
  untouched c -> (forall x, untouched (k x)) -> untouched (bind c k).
Proof.
  intros Hc Hk s. specialize (Hc s). unfold bind.
  destruct (c s) as [[e|x] s1]; simpl in *; [exact Hc|].
  exact (offline_trans _ _ _ Hc (Hk x s1)).
Qed.

Lemma untouched_for_each {A B} (body : A -> M B) items :
  (forall x, untouched (body x)) -> untouched (for_each body items).
Proof.
  intros Hbody. induction items as [|x items IH]; simpl.
  - apply untouched_ret.
  - apply untouched_bind; [apply Hbody|]. intros y.
    apply untouched_bind; [exact IH|]. intros ys. apply untouched_ret.
Qed.

Create HintDb frames discriminated.
#[local] Hint Resolve untouched_ret untouched_lift untouched_print
  untouched_http_get : frames.

(** Applies the frame rules down a chain of binds. *)
Ltac frame :=
  repeat first
    [ solve [auto with frames]
    | apply untouched_for_each; intros ?
    | apply untouched_bind; [|intros ?] ].

Lemma untouched_commit_record self commit :
  untouched (commit_record self commit).
Proof.
  unfold commit_record, _get_commit_details, _get_commit_diff, format_file.
  frame.
Qed.

(** X15.  [get_commit_history] only talks to the API and the console: it never
    calls the model, writes no file and leaves the environment as it
    found it, whether it succeeds or raises. *)
Theorem get_commit_history_untouched self max_commits :
  untouched (get_commit_history self max_commits).
Proof.
  unfold get_commit_history.
  apply untouched_bind; [apply untouched_print|intros _].
  apply untouched_bind; [apply untouched_http_get|intros response].
  apply untouched_bind; [apply untouched_lift|intros _].
  apply untouched_bind; [apply untouched_lift|intros listed].
  apply untouched_bind; [apply untouched_lift|intros entries].
  apply untouched_bind.
  { apply untouched_for_each. intros commit. apply untouched_commit_record. }
  intros commits.
  apply untouched_bind; [apply untouched_print|intros _].
  apply untouched_ret.
Qed.









End Frames.

(* ===================================================================== *)
(** ** The prompt and [_format_file_changes] *)
(* ===================================================================== *)

Section Prompt.
Context `{P : Platform}.
Import PyStr.

Lemma contains_refl s : contains s s.
Proof.
  exists EmptyString, EmptyString.
  change (s = s +:+ EmptyString). now rewrite PyStrMore.append_empty.
Qed.

Lemma contains_trans a b c : contains a b -> contains b c -> contains a c.
Proof.
  intros (x & y & ->) (u & v & ->). exists (x +:+ u), (v +:+ y).
  now rewrite !append_assoc.
Qed.

Lemma contains_tail a b sub : contains b sub -> contains (a +:+ b) sub.
Proof.
  intros (x & y & ->). exists (a +:+ x), y. now rewrite !append_assoc.
Qed.

Lemma contains_join sep items x : x ∈ items -> contains (join sep items) x.
Proof.
  induction items as [|y [|z items] IH]; intros Hin.
  - now apply elem_of_nil in Hin.
  - apply list_elem_of_singleton in Hin as ->. apply contains_refl.
  - change (join sep (y :: z :: items))
      with (y +:+ sep +:+ join sep (z :: items)).
    apply elem_of_cons in Hin as [-> | Hin].
    + apply contains_head, contains_refl.
    + now apply contains_tail, contains_tail, IH.
Qed.

Lemma repr_list items :
  PyVal.repr repr_str (PList items)
  = "[" +:+ join ", " (map (PyVal.repr repr_str) items) +:+ "]".
Proof. reflexivity. Qed.

Lemma repr_list_contains items v :
  v ∈ items ->
  contains (PyVal.repr repr_str (PList items)) (PyVal.repr repr_str v).
Proof.
  intros Hin. rewrite repr_list.
  apply contains_tail, contains_head, contains_join.
  now apply list_elem_of_fmap_2.
Qed.

Lemma repr_dict_contains items key v :
  (key, v) ∈ items ->
  contains (PyVal.repr repr_str (PDict items)) (PyVal.repr repr_str v).
Proof.
  intros Hin.
  change (PyVal.repr repr_str (PDict items))
    with ("{" +:+ join ", "
                   (map (fun kv => repr_str kv.1 +:+ ": "
                                   +:+ PyVal.repr repr_str kv.2) items)
              +:+ "}").
  apply contains_tail, contains_head.
  eapply contains_trans.
  - apply contains_join.
    apply (list_elem_of_fmap_2
             (fun kv => repr_str kv.1 +:+ ": " +:+ PyVal.repr repr_str kv.2)
             _ _ Hin).
  - simpl. apply contains_tail, contains_tail, contains_refl.
Qed.

(** X17.  Nothing is cut from the prompt: for every record passed to
    [generate_release_notes], the prompt holds the text of its whole
    dict, and so the text of its sha, of its message, of each of its
    file entries and of its complete diff. *)
Theorem prompt_holds_every_commit commits c :
  c ∈ commits ->
  contains (prompt_of commits) (PyVal.repr repr_str (commit_dict c)) /\
  contains (prompt_of commits) (PyVal.repr repr_str (sha c)) /\
  contains (prompt_of commits) (PyVal.repr repr_str (message c)) /\
  Forall (fun entry => contains (prompt_of commits) (repr_str entry))
         (files c) /\
  contains (prompt_of commits) (repr_str (diff c)).
Proof.
  intros Hin.
  assert (Hdict : contains (prompt_of commits)
                    (PyVal.repr repr_str (commit_dict c))).
  { unfold prompt_of.
    apply contains_tail, contains_head.
    change (PyVal.str repr_str (PList (map commit_dict commits)))
      with (PyVal.repr repr_str (PList (map commit_dict commits))).
    apply repr_list_contains. now apply list_elem_of_fmap_2. }
  assert (Hfield : forall key v,
             (key, v) ∈ [("sha", sha c); ("message", message c);
                         ("author", author c); ("date", date c);
                         ("files", PList (map PStr (files c)));
                         ("diff", PStr (diff c))] ->
             contains (prompt_of commits) (PyVal.repr repr_str v)).
  { intros key v Hkv. eapply contains_trans; [exact Hdict|].
    exact (repr_dict_contains _ _ _ Hkv). }
  split_and!.
  - exact Hdict.
  - apply (Hfield "sha"). set_solver.
  - apply (Hfield "message"). set_solver.
  - apply Forall_forall. intros entry Hentry.
    eapply contains_trans;
      [apply (Hfield "files" (PList (map PStr (files c)))); set_solver|].
    apply (repr_list_contains _ (PStr entry)).
    now apply list_elem_of_fmap_2.
  - apply (Hfield "diff" (PStr (diff c))). set_solver.
Qed.

End Prompt.

Section FileChanges.
Context `{P : Platform}.

(** One more file in front: the five lookups on it, then the rest. *)
Lemma format_file_changes_cons f files s :
  _format_file_changes (f :: files) s =
  match getitem f "filename", getitem f "status", getitem f "additions",
        getitem f "deletions", getitem f "changes" with
  | inr filename, inr status, inr additions, inr deletions, inr changes =>
      match _format_file_changes files s with
      | (inr out, s') =>
          (inr (PDict [("filename", filename); ("status", status);
                       ("additions", additions); ("deletions", deletions);
                       ("changes", changes)] :: out), s')
      | (inl e, s') => (inl e, s')
      end
  | inl e, _, _, _, _ => (inl e, s)
  | _, inl e, _, _, _ => (inl e, s)
  | _, _, inl e, _, _ => (inl e, s)
  | _, _, _, inl e, _ => (inl e, s)
  | _, _, _, _, inl e => (inl e, s)
  end.
Proof.
  unfold _format_file_changes. simpl. unfold bind, lift, ret, raise.
  destruct (getitem f "filename"), (getitem f "status"),
    (getitem f "additions"), (getitem f "deletions"), (getitem f "changes");
    reflexivity.
Qed.

Lemma summarises_self f d : summarises f d -> summarises d d.
Proof.
  intros (n & st & a & dl & c & _ & _ & _ & _ & _ & ->).
  now exists n, st, a, dl, c.
Qed.

Lemma format_file_changes_spec files s :
  (_format_file_changes files s).2 = s /\
  (forall out, (_format_file_changes files s).1 = inr out ->
               Forall2 summarises files out) /\
  (Forall (fun f => exists d, summarises f d) files ->
   exists out, (_format_file_changes files s).1 = inr out).
Proof.
  induction files as [|f files (IHs & IHout & IHok)].
  - split_and!; [reflexivity | | now exists []].
    intros out [= <-]. constructor.
  - rewrite format_file_changes_cons.
    destruct (getitem f "filename") as [e1|n] eqn:E1;
      [split_and!; [easy..|];
       intros [(d & ? & ? & ? & ? & ? & ? & _) _]%Forall_cons; congruence|].
    destruct (getitem f "status") as [e2|st] eqn:E2;
      [split_and!; [easy..|];
       intros [(d & ? & ? & ? & ? & ? & ? & ? & _) _]%Forall_cons; congruence|].
    destruct (getitem f "additions") as [e3|a] eqn:E3;
      [split_and!; [easy..|];
       intros [(d & ? & ? & ? & ? & ? & ? & ? & ? & _) _]%Forall_cons;
       congruence|].
    destruct (getitem f "deletions") as [e4|dl] eqn:E4;
      [split_and!; [easy..|];
       intros [(d & ? & ? & ? & ? & ? & ? & ? & ? & ? & _) _]%Forall_cons;
       congruence|].
    destruct (getitem f "changes") as [e5|c] eqn:E5;
      [split_and!; [easy..|];
       intros [(d & ? & ? & ? & ? & ? & ? & ? & ? & ? & ? & _) _]%Forall_cons;
       congruence|].
    destruct (_format_file_changes files s) as [[e|out] s'] eqn:Erest;
      simpl in *.
    + split_and!; [exact IHs | easy |].
      intros [_ Hrest]%Forall_cons.
      destruct (IHok Hrest) as [out' [=]].
    + split_and!; [exact IHs | | eauto].
      intros ? [= <-]. constructor; [|now apply IHout].
      now exists n, st, a, dl, c.
Qed.

(** X18.  [_format_file_changes] is a pure reshaping: it leaves the state as
    it is, and when it succeeds it returns one dict per file, in order,
    holding exactly the five keys [filename], [status], [additions],
    [deletions] and [changes] with the values of the file. *)
Theorem format_file_changes_copies files s out s' :
  _format_file_changes files s = (inr out, s') ->
  s' = s /\ Forall2 summarises files out.
Proof.
  intros Hrun. destruct (format_file_changes_spec files s) as (Hs & Hout & _).
  rewrite Hrun in Hs, Hout. split; [exact Hs | now apply Hout].
Qed.

(** X19.  [_format_file_changes] succeeds exactly when every file is a dict
    with the five keys; a file without one of them makes it raise. *)
Theorem format_file_changes_needs_keys files s :
  (exists out, (_format_file_changes files s).1 = inr out) <->
  Forall (fun f => exists d, summarises f d) files.
Proof.
  destruct (format_file_changes_spec files s) as (_ & Hout & Hok).
  split; [|exact Hok].
  intros [out Hrun]. specialize (Hout _ Hrun). clear Hrun Hok.
  induction Hout as [|f d files out Hfd _ IH]; constructor; eauto.
Qed.

(** X20.  Reshaping what [_format_file_changes] returned changes nothing: its
    output is of the shape it accepts, and comes back as it is. *)
Theorem format_file_changes_idempotent files s out s' :
  _format_file_changes files s = (inr out, s') ->
  forall s2, _format_file_changes out s2 = (inr out, s2).
Proof.
  intros Hrun s2.
  destruct (format_file_changes_copies _ _ _ _ Hrun) as [_ Hout].
  clear Hrun. induction Hout as [|f d files out Hfd _ IH]; [reflexivity|].
  rewrite format_file_changes_cons.
  destruct Hfd as (n & st & a & dl & c & _ & _ & _ & _ & _ & ->).
  simpl. now rewrite IH.
Qed.

End FileChanges.

Section Listing.
Context `{P : Platform}.

(** X11.  A list answer that is not JSON makes [get_commit_history] raise
    [JSONDecodeError] after the list request alone. *)
Theorem unreadable_listing self max_commits s resp w :
  requests_get (list_request self max_commits) (world s) = (inr resp, w) ->
  ~ failed resp ->
  json resp = None ->
  (get_commit_history self max_commits s).1 = inl JSONDecodeError /\
  http_log (get_commit_history self max_commits s).2
  = http_log s ++ [(list_request self max_commits, inr resp)].
Proof.
  intros Hget Hok Hjson.
  unfold get_commit_history, bind, print, http_get, lift. simpl.
  rewrite Hget. simpl. rewrite (raise_for_status_ok _ Hok). simpl.
  unfold response_json. rewrite Hjson. split; reflexivity.
Qed.

(** X12.  A run whose list answer holds an entry without a readable [sha], at
    any position, does not return records: it raises. *)
Theorem entries_need_sha self max_commits s rq resp rest listed entries :
  http_log (get_commit_history self max_commits s).2
  = http_log s ++ (rq, inr resp) :: rest ->
  json resp = Some listed -> iter listed = inr entries ->
  Exists (fun entry => exists e, getitem entry "sha" = inl e) entries ->
  exists e, (get_commit_history self max_commits s).1 = inl e.
Proof.
  intros Hlog Hjson Hiter Hbad.
  destruct (get_commit_history_post self max_commits s)
    as (l & Hlog' & answer & rest' & -> & _ & _ & Hok).
  rewrite Hlog' in Hlog. apply app_inv_head in Hlog.
  injection Hlog as _ -> _.
  destruct (get_commit_history self max_commits s).1 as [e|recs]; [eauto|].
  exfalso.
  destruct (Hok recs eq_refl)
    as (resp' & listed' & entries' & [= <-] & _ & Hjson' & Hiter' & Hbuilt).
  rewrite Hjson in Hjson'. injection Hjson' as <-.
  rewrite Hiter in Hiter'. injection Hiter' as <-.
  pose proof (built_all_sha _ _ _ _ Hbuilt) as Hsha. clear -Hsha Hbad.
  induction Hsha as [|entry rec entries recs Hentry _ IH].
  - now apply Exists_nil in Hbad.
  - apply Exists_cons in Hbad as [[e He]|Hbad]; [congruence | auto].
Qed.

End Listing.

(* ===================================================================== *)
(** ** More runs on the canned repository *)
(* ===================================================================== *)

Module MoreRuns.
Import Fixture.
#[local] Existing Instance platform.

Lemma parse_repo_url_single_segment_witness :
  _parse_repo_url "/octo/" = inl IndexError.
Proof.
  apply (parse_repo_url_single_segment "/octo/" "/" "octo" "/");
    reflexivity.
Defined.

Lemma parse_repo_url_components_witness :
  "octo" <> EmptyString /\
  PyStr.slash_free "octo" = true /\ PyStr.slash_free "demo" = true.
Proof.
  apply (parse_repo_url_components "https://github.com/octo/demo").
  reflexivity.
Defined.

Lemma parse_repo_url_owner_repo_witness :
  _parse_repo_url "http://example.org/octo/demo/tree/main?x=1#top"
  = inr ("octo", "demo").
Proof.
  apply (parse_repo_url_owner_repo
           "http://example.org/octo/demo/tree/main?x=1#top"
           "/" "octo" "demo" "/tree/main"); try reflexivity.
  right. exists "tree/main". reflexivity.
Defined.

Lemma main_stops_on_short_url_witness :
  main (boot (<["REPO_URL" := "/octo/"]> settings) healthy)
  = (inl IndexError, boot (<["REPO_URL" := "/octo/"]> settings) healthy).
Proof.
  apply (main_stops_on_short_url
           (boot (<["REPO_URL" := "/octo/"]> settings) healthy)
           "/octo/" "main" 2 IndexError).
  - reflexivity.
  - discriminate.
  - reflexivity.
  - discriminate.
  - reflexivity.
  - reflexivity.
Defined.

Lemma main_stops_on_bad_max_commits_witness :
  main (boot (<["MAX_COMMITS" := "many"]> settings) healthy)
  = (inl (ValueError "invalid literal for int()"),
     boot (<["MAX_COMMITS" := "many"]> settings) healthy).
Proof.
  apply (main_stops_on_bad_max_commits
           (boot (<["MAX_COMMITS" := "many"]> settings) healthy) "many").
  - reflexivity.
  - reflexivity.
Defined.

Lemma records_merge_answers_witness :
  exists l,
    http_log (history healthy).2 = http_log (boot with_token healthy) ++ l /\
    Forall (merged octo l) [r1; r2].
Proof.
  apply (records_merge_answers octo 2 (boot with_token healthy) [r1; r2]
           (history healthy).2).
  vm_compute. reflexivity.
Defined.

Lemma empty_listing_witness :
  (get_commit_history octo 2 (boot with_token (mkRepo [] EmptyString 200))).1
  = inr [] /\
  http_log (get_commit_history octo 2
              (boot with_token (mkRepo [] EmptyString 200))).2
  = http_log (boot with_token (mkRepo [] EmptyString 200))
    ++ [(list_request octo 2,
         inr (mkResponse 200 EmptyString (Some (PList []))))].
Proof.
  apply (empty_listing octo 2 (boot with_token (mkRepo [] EmptyString 200))
           (mkResponse 200 EmptyString (Some (PList [])))
           (mkRepo [] EmptyString 200) (PList [])).
  - reflexivity.
  - unfold failed. simpl. lia.
  - reflexivity.
  - reflexivity.
Defined.

Lemma requests_stay_on_api_witness :
  Forall (fun x => exists suffix,
            req_url x.1 = commits_url octo +:+ suffix)
         (http_log (history healthy).2).
Proof.
  apply (requests_stay_on_api octo 2 (boot with_token healthy)).
  reflexivity.
Defined.

Lemma requests_carry_two_headers_witness :
  Forall (fun x => dom (req_headers x.1)
                   = ({["Accept"; "Authorization"]} : gset string))
         (http_log (history healthy).2).
Proof.
  apply (requests_carry_two_headers "https://github.com/octo/demo" "main"
           (boot with_token healthy) octo
           (__init__ "https://github.com/octo/demo" "main"
              (boot with_token healthy)).2
           2 (boot with_token healthy)).
  - vm_compute. reflexivity.
  - reflexivity.
Defined.

Lemma prompt_holds_every_commit_witness :
  PyStr.contains (prompt_of [r1; r2]) (PyVal.repr repr_str (commit_dict r2)) /\
  PyStr.contains (prompt_of [r1; r2]) (PyVal.repr repr_str (sha r2)) /\
  PyStr.contains (prompt_of [r1; r2]) (PyVal.repr repr_str (message r2)) /\
  Forall (fun entry => PyStr.contains (prompt_of [r1; r2]) (repr_str entry))
         (files r2) /\
  PyStr.contains (prompt_of [r1; r2]) (repr_str (diff r2)).
Proof.
  apply (prompt_holds_every_commit [r1; r2] r2).
  apply list_elem_of_further, list_elem_of_here.
Defined.

Lemma format_file_changes_copies_witness :
  boot settings healthy = boot settings healthy /\
  Forall2 summarises [Scripted.file] [Scripted.summary].
Proof.
  apply (format_file_changes_copies [Scripted.file] (boot settings healthy)
           [Scripted.summary] (boot settings healthy)).
  reflexivity.
Defined.

Lemma format_file_changes_idempotent_witness :
  _format_file_changes [Scripted.summary] (boot with_token single)
  = (inr [Scripted.summary], boot with_token single).
Proof.
  apply (format_file_changes_idempotent [Scripted.file]
           (boot settings healthy) [Scripted.summary]
           (boot settings healthy)).
  reflexivity.
Defined.

End MoreRuns.

(* ===================================================================== *)
(** ** Runs against scripted answers *)
(* ===================================================================== *)

Module ScriptedRuns.
Import Scripted.
#[local] Existing Instance platform.

Lemma transport_error_propagates_witness :
  (get_commit_history Fixture.octo 2 (boot ∅ dropped)).1
  = inl (RequestException "connection reset").
Proof.
  apply (transport_error_propagates Fixture.octo 2 (boot ∅ dropped)
           (http_log (get_commit_history Fixture.octo 2 (boot ∅ dropped)).2)
           (details_request Fixture.octo (PStr "a1b2"))).
  - reflexivity.
  - apply list_elem_of_further, list_elem_of_here.
Defined.

Lemma unreadable_listing_witness :
  (get_commit_history Fixture.octo 2 (boot ∅ html)).1 = inl JSONDecodeError /\
  http_log (get_commit_history Fixture.octo 2 (boot ∅ html)).2
  = http_log (boot ∅ html)
    ++ [(list_request Fixture.octo 2,
         inr (mkResponse 200 "<html></html>" None))].
Proof.
  apply (unreadable_listing Fixture.octo 2 (boot ∅ html)
           (mkResponse 200 "<html></html>" None) []).
  - reflexivity.
  - unfold failed. simpl. lia.
  - reflexivity.
Defined.

Lemma entries_need_sha_witness :
  exists e, (get_commit_history Fixture.octo 2 (boot ∅ shaless)).1 = inl e.
Proof.
  apply (entries_need_sha Fixture.octo 2 (boot ∅ shaless)
           (list_request Fixture.octo 2)
           (mkResponse 200 EmptyString
              (Some (PList [Fixture.stub Fixture.c1;
                            PDict [("node_id", PStr "x")]])))
           (tail (http_log (get_commit_history Fixture.octo 2
                              (boot ∅ shaless)).2))
           (PList [Fixture.stub Fixture.c1; PDict [("node_id", PStr "x")]])
           [Fixture.stub Fixture.c1; PDict [("node_id", PStr "x")]]).
  - vm_compute. reflexivity.
  - reflexivity.
  - reflexivity.
  - apply Exists_cons_tl, Exists_cons_hd. eexists. reflexivity.
Defined.

(** C1, as first stated, fails when the list call returns more entries
    than were asked for: with [max_commits = 2] and three entries in the
    answer the run returns three records, which is not the minimum of 2
    and any number. *)
Lemma three_records_for_two :
  (get_commit_history Fixture.octo 2 (boot ∅ generous)).1
  = inr [Fixture.r1; Fixture.r2; Fixture.r1] /\
  forall available : nat,
    length [Fixture.r1; Fixture.r2; Fixture.r1] <> Nat.min 2 available.
Proof.
  split; [vm_compute; reflexivity|].
  intros available. pose proof (Nat.le_min_l 2 available).
  cbn [length]. lia.
Qed.

(** C3, as first stated, fails on a status that is neither a success
    nor in the range [raise_for_status] checks: the diff call is
    answered 302 and the run still returns the record. *)
Lemma redirect_is_not_checked :
  (get_commit_history Fixture.octo 2 (boot ∅ redirected)).1
  = inr [Fixture.r1] /\
  last (http_log (get_commit_history Fixture.octo 2 (boot ∅ redirected)).2)
  = Some (diff_request Fixture.octo (PStr "a1b2"),
          inr (mkResponse 302 "@@ -1 +1 @@" None)) /\
  ~ (200 <= 302 < 300).
Proof.
  split_and!; [vm_compute; reflexivity | vm_compute; reflexivity | lia].
Qed.

End ScriptedRuns.

(* ===================================================================== *)
(** ** A run without credentials *)
(* ===================================================================== *)

Module KeylessRuns.
#[local] Existing Instance Keyless.platform.

(** C7, as first stated, fails when the model client cannot be built:
    the constructor raises and no model call is made. *)
Lemma no_client_no_call :
  (generate_release_notes [] Keyless.boot).1 = inl (ModelError "no API key") /\
  chat_log (generate_release_notes [] Keyless.boot).2 = [].
Proof. split; reflexivity. Qed.

End KeylessRuns.
